(** * DS-TWR initiator (ds_init_main.c): ranging exchange engine

    A shallow embedding of the initiator side of the multi-anchor
    double-sided two-way ranging exchange: the three ranging frames, the
    40-bit timestamp assembly, the delayed-transmission arithmetic and the
    response-collection loop of [dsInitRun].

    Integers are modelled as [Z] with the wrap-around of their C type
    written out ([u8], [u32], [u64]); arrays are lists indexed with stdpp's
    lookup and insert.  Console output ([printf]) is not modelled; the
    three [int] counters are not wrapped (their overflow is undefined in C
    and out of reach of a round). *)

From Stdlib Require Import ZArith List Lia Bool.
From stdpp Require Import base list.
Import ListNotations.

Local Open Scope Z_scope.

(** ** Machine integers *)

Definition u8 (z : Z) : Z := z mod 2 ^ 8.
Definition u32 (z : Z) : Z := z mod 2 ^ 32.
Definition u64 (z : Z) : Z := z mod 2 ^ 64.

(** ** Arrays

    [peek a i] is the C read [a[i]] and [poke a i v] the C write
    [a[i] = v] for an index inside the array.  Outside the array the C
    access is undefined; [peek] then yields 0 and [poke] leaves the array
    as it is.  The one store of the program whose index can leave its array
    ([anchorsTimestamps[anchorID - 1]]) is modelled separately by
    [storeAnchorTimestamp], which records where the store went.  The one
    copy whose length comes from the radio ([dwt_readrxdata]) is recorded
    with its length in the log of driver calls. *)

Definition inBounds (a : list Z) (i : Z) : bool :=
  (0 <=? i) && (i <? Z.of_nat (length a)).

Definition peek (a : list Z) (i : Z) : Z :=
  if inBounds a i then default 0 (a !! Z.to_nat i) else 0.

Definition poke (a : list Z) (i : Z) (v : Z) : list Z :=
  if inBounds a i then <[Z.to_nat i := v]> a else a.

(** ** Constants of the source file *)

Definition RNG_DELAY_MS : Z := 100.
Definition ALL_MSG_COMMON_LEN : Z := 10.
Definition EX_SEQ_COUNT_IDX : Z := 2.
Definition FINAL_MSG_TX_1_IDX : Z := 10.
Definition FINAL_MSG_TX_2_IDX : Z := 14.
Definition FINAL_MSG_RX_1_IDX : Z := 18.
Definition ANCHOR_ID_IDX : Z := 10.
Definition FINAL_MSG_TS_LEN : Z := 4.
Definition RX_BUF_LEN : Z := 32.
Definition UUS_TO_DWT_TIME : Z := 65536.
Definition TX_ANT_DLY : Z := 16436.
Definition RESP_RX_TO_FINAL_TX_DLY_UUS : Z := 3800.

(** Character codes of 'W', 'A', 'V', 'E'. *)
Definition chW : Z := 0x57.
Definition chA : Z := 0x41.
Definition chV : Z := 0x56.
Definition chE : Z := 0x45.

(** The three frame templates, as initialised in the source. *)
Definition tagFirstMsg_init : list Z :=
  [0x41; 0x88; 0; 0xCA; 0xDE; chW; chA; chV; chE; 0xE0; 0; 0].

Definition anchorMsg : list Z :=
  [0x41; 0x88; 0; 0xCA; 0xDE; chV; chE; chW; chA; 0xE1;
   0; 0; 0; 0; 0; 0; 0; 0; 0; 0].

Definition tagFinalMsg_init : list Z :=
  [0x41; 0x88; 0; 0xCA; 0xDE; chW; chA; chV; chE; 0x23;
   0; 0; 0; 0; 0; 0; 0; 0; 0; 0; 0; 0; 0; 0; 0; 0; 0; 0; 0; 0; 0; 0].

Definition sizeof_tagFirstMsg : Z := 12.
Definition sizeof_tagFinalMsg : Z := 32.

(** ** The transceiver driver

    The driver (deca_device_api.h, deca_regs.h) is not part of the
    sources.  Its register masks and return code are taken as parameters;
    every driver call the program makes, apart from the reads of the status
    register, is recorded in order in the [radio] log. *)

Class DecaRegs := {
  SYS_STATUS_RXFCG : Z;
  SYS_STATUS_TXFRS : Z;
  SYS_STATUS_ALL_RX_TO : Z;
  SYS_STATUS_ALL_RX_ERR : Z;
  RX_FINFO_RXFLEN_MASK : Z;
  DWT_SUCCESS : Z
}.

Inductive RadioCmd : Type :=
| Write32bitReg_SYS_STATUS (v : Z)
| ReadRxData (len : Z)
| ReadRxTimestamp
| ReadTxTimestamp
| RxEnable
| RxReset
| WriteTxData (len : Z) (frame : list Z)
| WriteTxFctrl (len offset ranging : Z)
| StartTx (delayed responseExpected : bool)
| SetDelayedTrxTime (t : Z)
| SetLeds.

(** ** Program state: the file-scope variables of ds_init_main.c

    [strayStores] is not a C variable: it lists the stores made through
    [anchorsTimestamps] at an index outside the array, as (index, value).
    Such a store is undefined in C.  Where it lands is decided by the
    compiler and the linker, and it may well be on one of the variables
    below ([anchorsCount] among them).  From the first entry of
    [strayStores] on, the other fields are those of a run in which the
    store hit no variable of the program; the source does not promise
    that.  A run that leaves [strayStores] as it was has made no such
    store. *)

Record Globals : Type := mkGlobals {
  tagFirstMsg : list Z;
  tagFinalMsg : list Z;
  exchangeSeqCount : Z;
  rxBuffer : list Z;
  statusReg : Z;
  tagTxTimestamp1 : Z;
  tagRxTimestamp1 : Z;
  tagTxTimestamp2 : Z;
  txCount : Z;
  rxCount : Z;
  anchorsCount : Z;
  anchorsTimestamps : list Z;
  strayStores : list (Z * Z);
  radio : list RadioCmd
}.

Definition set_tagFirstMsg (v : list Z) (st : Globals) : Globals :=
  mkGlobals v (tagFinalMsg st) (exchangeSeqCount st) (rxBuffer st) (statusReg st) (tagTxTimestamp1 st) (tagRxTimestamp1 st)
    (tagTxTimestamp2 st) (txCount st) (rxCount st) (anchorsCount st) (anchorsTimestamps st) (strayStores st) (radio st).

Definition set_tagFinalMsg (v : list Z) (st : Globals) : Globals :=
  mkGlobals (tagFirstMsg st) v (exchangeSeqCount st) (rxBuffer st) (statusReg st) (tagTxTimestamp1 st) (tagRxTimestamp1 st)
    (tagTxTimestamp2 st) (txCount st) (rxCount st) (anchorsCount st) (anchorsTimestamps st) (strayStores st) (radio st).

Definition set_exchangeSeqCount (v : Z) (st : Globals) : Globals :=
  mkGlobals (tagFirstMsg st) (tagFinalMsg st) v (rxBuffer st) (statusReg st) (tagTxTimestamp1 st) (tagRxTimestamp1 st)
    (tagTxTimestamp2 st) (txCount st) (rxCount st) (anchorsCount st) (anchorsTimestamps st) (strayStores st) (radio st).

Definition set_rxBuffer (v : list Z) (st : Globals) : Globals :=
  mkGlobals (tagFirstMsg st) (tagFinalMsg st) (exchangeSeqCount st) v (statusReg st) (tagTxTimestamp1 st) (tagRxTimestamp1 st)
    (tagTxTimestamp2 st) (txCount st) (rxCount st) (anchorsCount st) (anchorsTimestamps st) (strayStores st) (radio st).

Definition set_statusReg (v : Z) (st : Globals) : Globals :=
  mkGlobals (tagFirstMsg st) (tagFinalMsg st) (exchangeSeqCount st) (rxBuffer st) v (tagTxTimestamp1 st) (tagRxTimestamp1 st)
    (tagTxTimestamp2 st) (txCount st) (rxCount st) (anchorsCount st) (anchorsTimestamps st) (strayStores st) (radio st).

Definition set_tagTxTimestamp1 (v : Z) (st : Globals) : Globals :=
  mkGlobals (tagFirstMsg st) (tagFinalMsg st) (exchangeSeqCount st) (rxBuffer st) (statusReg st) v (tagRxTimestamp1 st)
    (tagTxTimestamp2 st) (txCount st) (rxCount st) (anchorsCount st) (anchorsTimestamps st) (strayStores st) (radio st).

Definition set_tagRxTimestamp1 (v : Z) (st : Globals) : Globals :=
  mkGlobals (tagFirstMsg st) (tagFinalMsg st) (exchangeSeqCount st) (rxBuffer st) (statusReg st) (tagTxTimestamp1 st) v
    (tagTxTimestamp2 st) (txCount st) (rxCount st) (anchorsCount st) (anchorsTimestamps st) (strayStores st) (radio st).

Definition set_tagTxTimestamp2 (v : Z) (st : Globals) : Globals :=
  mkGlobals (tagFirstMsg st) (tagFinalMsg st) (exchangeSeqCount st) (rxBuffer st) (statusReg st) (tagTxTimestamp1 st) (tagRxTimestamp1 st)
    v (txCount st) (rxCount st) (anchorsCount st) (anchorsTimestamps st) (strayStores st) (radio st).

Definition set_txCount (v : Z) (st : Globals) : Globals :=
  mkGlobals (tagFirstMsg st) (tagFinalMsg st) (exchangeSeqCount st) (rxBuffer st) (statusReg st) (tagTxTimestamp1 st) (tagRxTimestamp1 st)
    (tagTxTimestamp2 st) v (rxCount st) (anchorsCount st) (anchorsTimestamps st) (strayStores st) (radio st).

Definition set_rxCount (v : Z) (st : Globals) : Globals :=
  mkGlobals (tagFirstMsg st) (tagFinalMsg st) (exchangeSeqCount st) (rxBuffer st) (statusReg st) (tagTxTimestamp1 st) (tagRxTimestamp1 st)
    (tagTxTimestamp2 st) (txCount st) v (anchorsCount st) (anchorsTimestamps st) (strayStores st) (radio st).

Definition set_anchorsCount (v : Z) (st : Globals) : Globals :=
  mkGlobals (tagFirstMsg st) (tagFinalMsg st) (exchangeSeqCount st) (rxBuffer st) (statusReg st) (tagTxTimestamp1 st) (tagRxTimestamp1 st)
    (tagTxTimestamp2 st) (txCount st) (rxCount st) v (anchorsTimestamps st) (strayStores st) (radio st).

Definition set_anchorsTimestamps (v : list Z) (st : Globals) : Globals :=
  mkGlobals (tagFirstMsg st) (tagFinalMsg st) (exchangeSeqCount st) (rxBuffer st) (statusReg st) (tagTxTimestamp1 st) (tagRxTimestamp1 st)
    (tagTxTimestamp2 st) (txCount st) (rxCount st) (anchorsCount st) v (strayStores st) (radio st).

Definition set_strayStores (v : list (Z * Z)) (st : Globals) : Globals :=
  mkGlobals (tagFirstMsg st) (tagFinalMsg st) (exchangeSeqCount st) (rxBuffer st) (statusReg st) (tagTxTimestamp1 st) (tagRxTimestamp1 st)
    (tagTxTimestamp2 st) (txCount st) (rxCount st) (anchorsCount st) (anchorsTimestamps st) v (radio st).

Definition set_radio (v : list RadioCmd) (st : Globals) : Globals :=
  mkGlobals (tagFirstMsg st) (tagFinalMsg st) (exchangeSeqCount st) (rxBuffer st) (statusReg st) (tagTxTimestamp1 st) (tagRxTimestamp1 st)
    (tagTxTimestamp2 st) (txCount st) (rxCount st) (anchorsCount st) (anchorsTimestamps st) (strayStores st) v.

Definition emit (cmds : list RadioCmd) (st : Globals) : Globals :=
  set_radio (radio st ++ cmds) st.

(** ** What the hardware supplies

    One [RxEvent] per read of the status register in the polling loop of
    the response collection: the register value and, should the program
    ask for them in that iteration, the frame-information register, the
    receive buffer of the chip and the raw receive timestamp. *)

Record RxEvent : Type := mkRxEvent {
  ev_status : Z;
  ev_finfo : Z;
  ev_frame : list Z;
  ev_rxstamp : list Z
}.

(** The inputs of one call of [dsInitRun]. *)
Record RoundInput : Type := mkRoundInput {
  in_reads : list RxEvent;   (* status reads while collecting responses *)
  in_txstamp : list Z;       (* raw transmit timestamp of the poll *)
  in_txStatus : Z;           (* result of dwt_starttx(DWT_START_TX_DELAYED) *)
  in_txReads : list Z        (* status reads while waiting for TXFRS *)
}.

(** Where a call of [dsInitRun] is when its inputs end. *)
Inductive Outcome : Type :=
| PollingForResponses (st : Globals)
| PollingForTxDone (st : Globals)
| Returned (ret : Z) (st : Globals).

(** ** Timestamp assembly and encoding *)

(** A [uint8] array of the program filled by the driver from [raw]. *)
Definition driverByte (raw : list Z) (i : Z) : Z := u8 (peek raw i).

(** The loop shared by [getTxTimestampU64] and [getRxTimestampU64]:
    [for (i = 4; i >= 0; i--) { ts <<= 8; ts |= tsTab[i]; }]. *)
Definition tsLoopBody (tsTab : list Z) (ts i : Z) : Z :=
  Z.lor (u64 (Z.shiftl ts 8)) (driverByte tsTab i).

Definition getTxTimestampU64 (tsTab : list Z) : Z :=
  fold_left (tsLoopBody tsTab) [4; 3; 2; 1; 0] 0.

Definition getRxTimestampU64 (tsTab : list Z) : Z :=
  fold_left (tsLoopBody tsTab) [4; 3; 2; 1; 0] 0.

(** [n] iterations of [{ tsField[j] = (uint8) ts; ts >>= 8; j++ }]. *)
Fixpoint writeTsBytes (n : nat) (msg : list Z) (j ts : Z) : list Z :=
  match n with
  | O => msg
  | S n' => writeTsBytes n' (poke msg j (u8 ts)) (j + 1) (Z.shiftr ts 8)
  end.

(** [finalMsgSetTs(&msg[tsField], ts)]. *)
Definition finalMsgSetTs (msg : list Z) (tsField ts : Z) : list Z :=
  writeTsBytes (Z.to_nat FINAL_MSG_TS_LEN) msg tsField ts.

(** [finalMsgSetRxTs(&msg[tsField])]: for anchor slot [i] the inner loop
    runs [j] from [i * 4] up to [(i + 1) * FINAL_MSG_TS_LEN]. *)
Definition finalMsgSetRxTs_slot (tsField : Z) (table : list Z)
    (msg : list Z) (i : Z) : list Z :=
  writeTsBytes (Z.to_nat ((i + 1) * FINAL_MSG_TS_LEN - i * 4))
    msg (tsField + i * 4) (peek table i).

Definition finalMsgSetRxTs (N : Z) (table msg : list Z) (tsField : Z) : list Z :=
  fold_left (finalMsgSetRxTs_slot tsField table) (seqZ 0 N) msg.

(** ** Delayed-transmission arithmetic (lines 200 and 204) *)

Definition scheduledFinalTxTime (rxTs dlyUUS : Z) : Z :=
  u32 (Z.shiftr (u64 (rxTs + dlyUUS * UUS_TO_DWT_TIME)) 8).

Definition predictFinalTxTimestamp (tagSendDelayTime antDly : Z) : Z :=
  u64 (Z.shiftl (Z.land tagSendDelayTime 0xFFFFFFFE) 8 + antDly).

(** ** Frame reception helpers *)

(** [dwt_readrxdata(buf, len, 0)]: copy [len] bytes of the chip's receive
    buffer to the start of [buf]. *)
Definition readrxdata (buf : list Z) (len : Z) (chip : list Z) : list Z :=
  fold_left (fun b i => poke b i (driverByte chip i)) (seqZ 0 len) buf.

(** [memcmp(a, b, n) == 0]. *)
Definition memcmp_eq (a b : list Z) (n : Z) : bool :=
  bool_decide (take (Z.to_nat n) a = take (Z.to_nat n) b).

(** [anchorsTimestamps[idx] = ts] (line 173).  Inside the table the slot
    is written.  Outside it the C store is undefined: the model changes no
    program variable and appends the store to [strayStores]. *)
Definition storeAnchorTimestamp (idx ts : Z) (st : Globals) : Globals :=
  if inBounds (anchorsTimestamps st) idx
  then set_anchorsTimestamps (<[Z.to_nat idx := ts]> (anchorsTimestamps st)) st
  else set_strayStores (strayStores st ++ [(idx, ts)]) st.

(** ** dsInitRun *)

(** [ANCHORS_TOTAL_COUNT] is a configuration macro; the source sets it to
    3, the number of anchors the 32-byte [tagFinalMsg] has room for. *)
Section DsInit.
Context {regs : DecaRegs}.
Variable ANCHORS_TOTAL_COUNT : Z.

(** Static initialisation of the file-scope variables. *)
Definition initGlobals : Globals :=
  mkGlobals tagFirstMsg_init tagFinalMsg_init 0
    (replicate (Z.to_nat RX_BUF_LEN) 0) 0 0 0 0 0 0 0
    (replicate (Z.to_nat ANCHORS_TOTAL_COUNT) 0) [] [].

(** Lines 120-135: clear the table, send the poll, reset the counter. *)
Definition sendPoll (st : Globals) : Globals :=
  let st := set_anchorsTimestamps
              (replicate (length (anchorsTimestamps st)) 0) st in
  let st := set_tagFirstMsg
              (poke (tagFirstMsg st) EX_SEQ_COUNT_IDX (exchangeSeqCount st)) st in
  let st := emit [Write32bitReg_SYS_STATUS SYS_STATUS_TXFRS;
                  WriteTxData sizeof_tagFirstMsg (tagFirstMsg st);
                  WriteTxFctrl sizeof_tagFirstMsg 0 1;
                  StartTx false true] st in
  let st := set_txCount (txCount st + 1) st in
  set_anchorsCount 0 st.

(** Lines 158-163: count the reception and read its timestamp. *)
Definition takeRxTimestamp (ev : RxEvent) (st : Globals) : Globals :=
  let st := set_rxCount (rxCount st + 1) st in
  emit [ReadRxTimestamp]
    (set_tagRxTimestamp1 (getRxTimestampU64 (ev_rxstamp ev)) st).

(** Lines 170-176: the bounds check on the anchor number, the store of
    the timestamp and the count of the response. *)
Definition recordResponse (anchorID : Z) (st : Globals) : Globals :=
  if ANCHORS_TOTAL_COUNT <? anchorID then st
  else set_anchorsCount (anchorsCount st + 1)
         (storeAnchorTimestamp (anchorID - 1) (tagRxTimestamp1 st) st).

(** Lines 181-183: enable reception again while responses are missing. *)
Definition rearmReceiver (st : Globals) : Globals :=
  if anchorsCount st <? ANCHORS_TOTAL_COUNT then emit [RxEnable] st else st.

(** Lines 158-183: a frame that matched the response header. *)
Definition onResponse (ev : RxEvent) (st : Globals) : Globals :=
  let st := takeRxTimestamp ev st in
  let anchorID := peek (rxBuffer st) ANCHOR_ID_IDX in
  rearmReceiver (recordResponse anchorID st).

(** Lines 145-156: acknowledge the frame, copy it to [rxBuffer] when it
    fits, clear the sequence number byte. *)
Definition receiveFrame (ev : RxEvent) (st : Globals) : Globals :=
  let st := emit [Write32bitReg_SYS_STATUS
                    (Z.lor SYS_STATUS_RXFCG SYS_STATUS_TXFRS)] st in
  let frameLen := Z.land (u32 (ev_finfo ev)) RX_FINFO_RXFLEN_MASK in
  let st :=
    if frameLen <=? RX_BUF_LEN
    then emit [ReadRxData frameLen]
           (set_rxBuffer (readrxdata (rxBuffer st) frameLen (ev_frame ev)) st)
    else st in
  set_rxBuffer (poke (rxBuffer st) EX_SEQ_COUNT_IDX 0) st.

(** Lines 142-191: the branch taken when RXFCG is set. *)
Definition onGoodFrame (ev : RxEvent) (st : Globals) : Globals :=
  let st := receiveFrame ev st in
  if memcmp_eq (rxBuffer st) anchorMsg ALL_MSG_COMMON_LEN
  then onResponse ev st
  else emit [Write32bitReg_SYS_STATUS
               (Z.lor SYS_STATUS_ALL_RX_TO SYS_STATUS_ALL_RX_ERR);
             RxReset] st.

(** Lines 141-192: the body of the outer loop once the polling loop of
    line 139 has left [statusReg] with one of the awaited bits set. *)
Definition loopBody (ev : RxEvent) (st : Globals) : Globals :=
  if negb (Z.land (statusReg st) SYS_STATUS_RXFCG =? 0)
  then onGoodFrame ev st
  else st.

(** The exit test of the polling loop of line 139. *)
Definition rxEventPending (status : Z) : bool :=
  negb (Z.land status
          (Z.lor SYS_STATUS_RXFCG
             (Z.lor SYS_STATUS_ALL_RX_TO SYS_STATUS_ALL_RX_ERR)) =? 0).

Inductive LoopResult : Type :=
| Spinning (st : Globals)
| Exited (st : Globals).

(** Lines 137-193.  Each element of [reads] is one read of the status
    register at line 139; a read without an awaited bit keeps the polling
    loop spinning, any other runs [loopBody] once. *)
Fixpoint responseLoop (reads : list RxEvent) (st : Globals) : LoopResult :=
  if anchorsCount st <? ANCHORS_TOTAL_COUNT then
    match reads with
    | [] => Spinning st
    | ev :: reads' =>
        let st := set_statusReg (u32 (ev_status ev)) st in
        if rxEventPending (statusReg st)
        then responseLoop reads' (loopBody ev st)
        else responseLoop reads' st
    end
  else Exited st.

(** Lines 195-218: timestamps, final frame, sequence number, delayed
    transmission request. *)
Definition sendFinal (txstamp : list Z) (st : Globals) : Globals :=
  let st := emit [ReadTxTimestamp]
              (set_tagTxTimestamp1 (getTxTimestampU64 txstamp) st) in
  let tagSendDelayTime :=
    scheduledFinalTxTime
      (peek (anchorsTimestamps st) (ANCHORS_TOTAL_COUNT - 1))
      RESP_RX_TO_FINAL_TX_DLY_UUS in
  let st := emit [SetDelayedTrxTime tagSendDelayTime] st in
  let st := set_tagTxTimestamp2
              (predictFinalTxTimestamp tagSendDelayTime TX_ANT_DLY) st in
  let st := set_tagFinalMsg
              (finalMsgSetTs (tagFinalMsg st) FINAL_MSG_TX_1_IDX
                 (tagTxTimestamp1 st)) st in
  let st := set_tagFinalMsg
              (finalMsgSetTs (tagFinalMsg st) FINAL_MSG_TX_2_IDX
                 (tagTxTimestamp2 st)) st in
  let st := set_tagFinalMsg
              (finalMsgSetRxTs ANCHORS_TOTAL_COUNT (anchorsTimestamps st)
                 (tagFinalMsg st) FINAL_MSG_RX_1_IDX) st in
  let st := set_exchangeSeqCount (u8 (exchangeSeqCount st + 1)) st in
  let st := set_tagFinalMsg
              (poke (tagFinalMsg st) EX_SEQ_COUNT_IDX (exchangeSeqCount st)) st in
  emit [WriteTxData sizeof_tagFinalMsg (tagFinalMsg st);
        WriteTxFctrl sizeof_tagFinalMsg 0 1;
        StartTx true false] st.

(** Line 223: [while (!(dwt_read32bitreg(SYS_STATUS_ID) & SYS_STATUS_TXFRS))]. *)
Fixpoint txDoneSeen (reads : list Z) : bool :=
  match reads with
  | [] => false
  | r :: reads' =>
      if negb (Z.land (u32 r) SYS_STATUS_TXFRS =? 0) then true
      else txDoneSeen reads'
  end.

(** Lines 220-232. *)
Definition afterStartTx (txStatus : Z) (txReads : list Z) (st : Globals) : Outcome :=
  if txStatus =? DWT_SUCCESS then
    if txDoneSeen txReads
    then Returned 1 (emit [Write32bitReg_SYS_STATUS SYS_STATUS_TXFRS] st)
    else PollingForTxDone st
  else Returned 1 st.

Definition dsInitRun (inp : RoundInput) (st : Globals) : Outcome :=
  match responseLoop (in_reads inp) (sendPoll st) with
  | Spinning st' => PollingForResponses st'
  | Exited st' =>
      afterStartTx (in_txStatus inp) (in_txReads inp)
        (sendFinal (in_txstamp inp) st')
  end.

(** The loop of [ds_initiator_task_function]: call [dsInitRun] again and
    again (the task delay between two calls does not touch the state).
    One [RoundInput] per call; the result is where the task is when the
    inputs end. *)
Fixpoint taskLoop (inputs : list RoundInput) (st : Globals) : Outcome :=
  match inputs with
  | [] => Returned 1 st
  | inp :: inputs' =>
      match dsInitRun inp st with
      | Returned _ st' => taskLoop inputs' st'
      | blocked => blocked
      end
  end.

Definition ds_initiator_task_function (inputs : list RoundInput)
    (st : Globals) : Outcome :=
  taskLoop inputs (emit [SetLeds] st).

End DsInit.

(** ** A concrete configuration

    A concrete set of masks, those of the DW1000 register map, for the
    concrete runs below (all with three anchors, as the source is
    configured); the general statements hold for any masks. *)
Definition dw1000 : DecaRegs :=
  {| SYS_STATUS_RXFCG := 0x00004000;
     SYS_STATUS_TXFRS := 0x00000080;
     SYS_STATUS_ALL_RX_TO := 0x00220000;
     SYS_STATUS_ALL_RX_ERR := 0x24059000;
     RX_FINFO_RXFLEN_MASK := 0x0000007F;
     DWT_SUCCESS := 0 |}.

(** A response frame from anchor [id] (20 bytes, sequence number [seq]). *)
Definition responseFrame (seq id : Z) : list Z :=
  [0x41; 0x88; seq; 0xCA; 0xDE; chV; chE; chW; chA; 0xE1;
   id; 0; 0; 0; 0; 0; 0; 0; 0; 0].

(** Status reads: a good frame, a receive timeout, a frame-check error. *)
Definition goodFrameEvent (len : Z) (frame stamp : list Z) : RxEvent :=
  mkRxEvent 0x00004000 len frame stamp.

Definition timeoutEvent : RxEvent := mkRxEvent 0x00020000 0 [] [].

Definition errorEvent : RxEvent := mkRxEvent 0x00008000 0 [] [].

(** ** Reference notions used in the statements *)

(** Little-endian decomposition of [v] into [n] bytes, least significant
    byte first. *)
Fixpoint leBytes (n : nat) (v : Z) : list Z :=
  match n with
  | O => []
  | S n' => v mod 256 :: leBytes n' (v / 256)
  end.

(** Frames handed to the transmitter, in order. *)
Fixpoint txFrames (log : list RadioCmd) : list (list Z) :=
  match log with
  | [] => []
  | WriteTxData _ frame :: log' => frame :: txFrames log'
  | _ :: log' => txFrames log'
  end.

(** The state an outcome carries. *)
Definition stateOf (o : Outcome) : Globals :=
  match o with
  | PollingForResponses st => st
  | PollingForTxDone st => st
  | Returned _ st => st
  end.

(** The outcome lies beyond the response-collection loop. *)
Definition pastResponseLoop (o : Outcome) : bool :=
  match o with
  | PollingForResponses _ => false
  | _ => true
  end.

(** The loop is still polling. *)
Definition isSpinning (r : LoopResult) : bool :=
  match r with
  | Spinning _ => true
  | Exited _ => false
  end.

(** The state a loop result carries. *)
Definition loopState (r : LoopResult) : Globals :=
  match r with
  | Spinning st => st
  | Exited st => st
  end.

(** Bounds of the timestamps the program holds: the assembled ones and
    the table slots fit in 40 bits, the predicted final-TX timestamp lies
    below [2^40 + TX_ANT_DLY]. *)
Definition stampsBounded (st : Globals) : Prop :=
  0 <= tagTxTimestamp1 st < 2 ^ 40
  /\ 0 <= tagRxTimestamp1 st < 2 ^ 40
  /\ Forall (fun t => 0 <= t < 2 ^ 40) (anchorsTimestamps st)
  /\ 0 <= tagTxTimestamp2 st < 2 ^ 40 + TX_ANT_DLY.

(** Three responses, from anchors 1, 2 and 3; the last one is received at
    device time [0xFFF127FF00]. *)
Definition lateRound : RoundInput :=
  mkRoundInput
    [goodFrameEvent 20 (responseFrame 0 1) [0x00; 0x00; 0x00; 0xF1; 0xFF];
     goodFrameEvent 20 (responseFrame 0 2) [0x00; 0x80; 0x10; 0xF1; 0xFF];
     goodFrameEvent 20 (responseFrame 0 3) [0x00; 0xFF; 0x27; 0xF1; 0xFF]]
    [0x00; 0x00; 0x00; 0xF0; 0xFF] 0 [0x80].

(** The status read leaves RXFCG clear: a timeout, an error, or nothing. *)
Definition noGoodFrame {regs : DecaRegs} (ev : RxEvent) : Prop :=
  Z.land (u32 (ev_status ev)) SYS_STATUS_RXFCG = 0.

(** What the collection loop leaves alone: the sequence counter, the two
    transmit frames, the frames given to the transmitter so far, and the
    sizes of the table and of the receive buffer. *)
Definition sameTxSide (st0 st : Globals) : Prop :=
  exchangeSeqCount st = exchangeSeqCount st0
  /\ tagFirstMsg st = tagFirstMsg st0
  /\ tagFinalMsg st = tagFinalMsg st0
  /\ txFrames (radio st) = txFrames (radio st0)
  /\ length (anchorsTimestamps st) = length (anchorsTimestamps st0)
  /\ length (rxBuffer st) = length (rxBuffer st0).

(** The ten header bytes of the final and of the poll frame, with
    sequence number [seq]. *)
Definition finalHeader (seq : Z) : list Z :=
  [0x41; 0x88; seq; 0xCA; 0xDE; chW; chA; chV; chE; 0x23].

Definition pollHeader (seq : Z) : list Z :=
  [0x41; 0x88; seq; 0xCA; 0xDE; chW; chA; chV; chE; 0xE0].

(** The transmit side of the state is as the rounds leave it: an 8-bit
    sequence counter, the two frame arrays with their headers and sizes
    (12 and 32 bytes), a table of [N] slots. *)
Definition framesIntact (N : Z) (st : Globals) : Prop :=
  0 <= exchangeSeqCount st < 256
  /\ (exists seq, tagFirstMsg st = pollHeader seq ++ [0; 0])
  /\ (exists seq payload,
        tagFinalMsg st = finalHeader seq ++ payload /\ length payload = 22%nat)
  /\ length (anchorsTimestamps st) = Z.to_nat N.

(** The layout of the final frame as the specification words it: header,
    poll-TX, the receive timestamps in anchor order, final-TX. *)
Definition finalLayout_rxBeforeFinalTx (seq pollTx : Z) (rx : list Z)
    (finalTx : Z) : list Z :=
  finalHeader seq ++ leBytes 4 pollTx ++ concat (map (leBytes 4) rx)
    ++ leBytes 4 finalTx.

(** Three responses in anchor order with distinct timestamps. *)
Definition orderedRound : RoundInput :=
  mkRoundInput
    [goodFrameEvent 20 (responseFrame 0 1) [0x11; 0x12; 0x13; 0x14; 0x00];
     goodFrameEvent 20 (responseFrame 0 2) [0x21; 0x22; 0x23; 0x24; 0x00];
     goodFrameEvent 20 (responseFrame 0 3) [0x31; 0x32; 0x33; 0x34; 0x00]]
    [0x01; 0x02; 0x03; 0x04; 0x00] 0 [0x80].

(** The two transmit frame arrays have the sizes of the source. *)
Definition txArraysSized (st : Globals) : Prop :=
  Z.of_nat (length (tagFirstMsg st)) = sizeof_tagFirstMsg
  /\ Z.of_nat (length (tagFinalMsg st)) = sizeof_tagFinalMsg.

(** Three responses that all carry anchor number 0. *)
Definition zeroIdRound : RoundInput :=
  mkRoundInput
    [goodFrameEvent 20 (responseFrame 0 0) [0x0B; 0; 0; 0; 0];
     goodFrameEvent 20 (responseFrame 0 0) [0x0C; 0; 0; 0; 0];
     goodFrameEvent 20 (responseFrame 0 0) [0x0D; 0; 0; 0; 0]]
    [0x01; 0x02; 0x03; 0x04; 0x00] 0 [0x80].

(** The first read of a round reports a response that carries anchor
    number 0, received at device time 0x0B. *)
Definition firstZeroIdRead : list RxEvent :=
  [goodFrameEvent 20 (responseFrame 0 0) [0x0B; 0; 0; 0; 0]].

(** That read, then responses from anchors 1 and 2; anchor 3 stays
    silent. *)
Definition zeroFirstRound : RoundInput :=
  mkRoundInput
    (firstZeroIdRead ++
     [goodFrameEvent 20 (responseFrame 0 1) [0x0C; 0; 0; 0; 0];
      goodFrameEvent 20 (responseFrame 0 2) [0x0D; 0; 0; 0; 0]])
    [0x01; 0x02; 0x03; 0x04; 0x00] 0 [0x80].

(** Responses from anchors 3, 1 and 2, in that order, received at device
    times 1_000_000, 2_000_000 and 3_000_000. *)
Definition shuffledRound : RoundInput :=
  mkRoundInput
    [goodFrameEvent 20 (responseFrame 0 3) [0x40; 0x42; 0x0F; 0; 0];
     goodFrameEvent 20 (responseFrame 0 1) [0x80; 0x84; 0x1E; 0; 0];
     goodFrameEvent 20 (responseFrame 0 2) [0xC0; 0xC6; 0x2D; 0; 0]]
    [0x01; 0x02; 0x03; 0x04; 0x00] 0 [0x80].


(** A good frame that is not a response (function code 0x99). *)
Definition strangerEvent : RxEvent :=
  goodFrameEvent 12 [0x41; 0x88; 0; 0xCA; 0xDE; chV; chE; chW; chA; 0x99; 0; 0]
    [0x4D; 0; 0; 0; 0].

(** ** Further reference notions *)

(** The number a little-endian byte field stands for. *)
Fixpoint leValue (bs : list Z) : Z :=
  match bs with
  | [] => 0
  | b :: bs' => b + 256 * leValue bs'
  end.

(** The four-byte field of a frame that starts at byte [at_]. *)
Definition field32 (msg : list Z) (at_ : Z) : list Z :=
  take 4 (drop (Z.to_nat at_) msg).

(** The status read reports a good frame of a length that reaches past
    the anchor number and fits the receive buffer, whose first ten bytes
    (the sequence number aside) are those of the response header and whose
    byte 10 is [id]. *)
Definition carriesResponse {regs : DecaRegs} (id : Z) (ev : RxEvent) : Prop :=
  let frameLen := Z.land (u32 (ev_finfo ev)) RX_FINFO_RXFLEN_MASK in
  Z.land (u32 (ev_status ev)) SYS_STATUS_RXFCG <> 0
  /\ ANCHOR_ID_IDX < frameLen <= RX_BUF_LEN
  /\ (forall i, 0 <= i < ALL_MSG_COMMON_LEN -> i <> EX_SEQ_COUNT_IDX ->
        driverByte (ev_frame ev) i = peek anchorMsg i)
  /\ driverByte (ev_frame ev) ANCHOR_ID_IDX = id.

(** The state right after the first response of a round, from anchor 1. *)
Definition afterFirstResponse : Globals :=
  loopState
    (responseLoop (regs := dw1000) 3
       [goodFrameEvent 20 (responseFrame 0 1) [0x0B; 0; 0; 0; 0]]
       (sendPoll (regs := dw1000) (initGlobals 3))).

(** A good frame reported as 100 bytes long. *)
Definition longFrameEvent : RxEvent :=
  goodFrameEvent 100 [] [0x4D; 0; 0; 0; 0].

(** A round that starts with such a frame and goes on with responses from
    anchors 1, 2 and 3. *)
Definition longFrameRound : RoundInput :=
  mkRoundInput (longFrameEvent :: in_reads orderedRound)
    (in_txstamp orderedRound) (in_txStatus orderedRound) (in_txReads orderedRound).

(** A driver call that copies to [rxBuffer] copies no more than the
    buffer holds.  [dwt_readrxdata] is the only such call. *)
Definition copyFits (cmd : RadioCmd) : Prop :=
  match cmd with
  | ReadRxData len => 0 <= len <= RX_BUF_LEN
  | _ => True
  end.

Definition copiesFit (log : list RadioCmd) : Prop := Forall copyFits log.

(** The arrays the loop writes keep their shape: the receive buffer has
    its 32 bytes, each an 8-bit value, the table has [N] slots, and every
    store that left the table went to index -1. *)
Definition arraysKept (N : Z) (st : Globals) : Prop :=
  Z.of_nat (length (rxBuffer st)) = RX_BUF_LEN
  /\ Forall (fun b => 0 <= b < 256) (rxBuffer st)
  /\ Z.of_nat (length (anchorsTimestamps st)) = N
  /\ Forall (fun store => fst store = -1) (strayStores st).

(** A round with a timeout, an error and a frame that is no response
    between the responses of anchors 1, 2 and 3. *)
Definition interruptedRound : RoundInput :=
  mkRoundInput
    [timeoutEvent;
     goodFrameEvent 20 (responseFrame 0 1) [0x11; 0x12; 0x13; 0x14; 0x00];
     errorEvent;
     strangerEvent;
     goodFrameEvent 20 (responseFrame 0 2) [0x21; 0x22; 0x23; 0x24; 0x00];
     goodFrameEvent 20 (responseFrame 0 3) [0x31; 0x32; 0x33; 0x34; 0x00]]
    [0x01; 0x02; 0x03; 0x04; 0x00] 0 [0x80].

(** The status reads of a round that report a good frame. *)
Definition goodFrameReads {regs : DecaRegs} (reads : list RxEvent) : list RxEvent :=
  List.filter
    (fun ev => negb (Z.land (u32 (ev_status ev)) SYS_STATUS_RXFCG =? 0)) reads.

(** Some status read of the wait for transmit-done has TXFRS set. *)
Definition txDoneReported {regs : DecaRegs} (txReads : list Z) : Prop :=
  Exists (fun r => Z.land (u32 r) SYS_STATUS_TXFRS <> 0) txReads.

(** The poll frame array holds the poll header, with some sequence number,
    and the two bytes left for the checksum; the counter is an 8-bit value. *)
Definition pollIntact (st : Globals) : Prop :=
  (exists seq, tagFirstMsg st = pollHeader seq ++ [0; 0])
  /\ 0 <= exchangeSeqCount st < 256.

(** * Twist solver (TwistSolver.cpp)

    The solver computes with [double]s and the C math library, and the
    header that declares its structures, enumerations and constants is not
    part of the sources.  The arithmetic is therefore a parameter: a type
    [num] of numbers with the operations, comparisons, literals and
    constants the source uses, of which nothing is assumed.  The control
    flow, the return codes and the fields written are those of the source;
    [a != b] is [negb (a == b)], [a > b] is [b < a], [a >= b] is
    [b <= a].  The structures carry the fields the source reads or
    writes, the enumerations the enumerators it names. *)

Module TwistSolver.

Class Arith : Type := {
  num : Type;
  of_int : Z -> num;              (* an integer literal, converted *)
  lit_2_0 : num;                  (* 2.0 *)
  lit_360_0 : num;                (* 360.0 *)
  M_PI : num;
  M_PI_2 : num;
  SHAFT_TO_ENCODER_FACTOR : num;
  PLATFORM_RADIUS_LIM : num;
  add : num -> num -> num;
  sub : num -> num -> num;
  mul : num -> num -> num;
  div : num -> num -> num;
  neg : num -> num;
  fabs : num -> num;
  sqrt : num -> num;
  pow : num -> num -> num;
  asin : num -> num;
  atan2 : num -> num -> num;
  eqb : num -> num -> bool;       (* == *)
  ltb : num -> num -> bool;       (* < *)
  leb : num -> num -> bool        (* <= *)
}.

Inductive TwistError_t : Type :=
| TWIST_OK
| TWIST_ZERO
| TWIST_EX_LIM
| TWIST_UNKNOWN.

Inductive WheelPosition_t : Type :=
| WHEEL_POS_TOP_LEFT
| WHEEL_POS_TOP_RIGHT
| WHEEL_POS_BOTTOM_LEFT
| WHEEL_POS_BOTTOM_RIGHT.

Definition wheelPos_eqb (a b : WheelPosition_t) : bool :=
  match a, b with
  | WHEEL_POS_TOP_LEFT, WHEEL_POS_TOP_LEFT => true
  | WHEEL_POS_TOP_RIGHT, WHEEL_POS_TOP_RIGHT => true
  | WHEEL_POS_BOTTOM_LEFT, WHEEL_POS_BOTTOM_LEFT => true
  | WHEEL_POS_BOTTOM_RIGHT, WHEEL_POS_BOTTOM_RIGHT => true
  | _, _ => false
  end.

Section Solver.
Context {arith : Arith}.

Record LinearVels_t : Type := mkLinear { lin_x : num; lin_y : num }.
Record AngularVels_t : Type := mkAngular { ang_z : num }.
Record PlatformDimensions_t : Type := mkPlatform {
  diagonalHalf : num;
  breadthHalf : num;
  lengthHalf : num
}.
Record WheelParams_t : Type := mkWheel {
  radius : num;
  servCalib : num;
  wheelPos : WheelPosition_t
}.
Record DriveParams_t : Type := mkDrive {
  steerAngle : num;
  posAngle : num;
  speed : num
}.

Definition set_steerAngle (v : num) (d : DriveParams_t) : DriveParams_t :=
  mkDrive v (posAngle d) (speed d).
Definition set_posAngle (v : num) (d : DriveParams_t) : DriveParams_t :=
  mkDrive (steerAngle d) v (speed d).
Definition set_speed (v : num) (d : DriveParams_t) : DriveParams_t :=
  mkDrive (steerAngle d) (posAngle d) v.

Definition neb (a b : num) : bool := negb (eqb a b).
Definition gtb (a b : num) : bool := ltb b a.
Definition geb (a b : num) : bool := leb b a.

(** [steerAngle *= -1] under a condition. *)
Definition flipIf (cond : bool) (steer : num) : num :=
  if cond then mul steer (of_int (-1)) else steer.

Definition solvBodyRadius (linear : LinearVels_t) (angular : AngularVels_t) : num :=
  let turnRadius := div (lin_x linear) (ang_z angular) in
  fabs turnRadius.

Definition solvSpotTurn (angular : AngularVels_t) (platform : PlatformDimensions_t)
    (wheel : WheelParams_t) (drive : DriveParams_t) : TwistError_t * DriveParams_t :=
  if eqb (ang_z angular) (of_int 0) then
    let drive := set_steerAngle (of_int 0) drive in
    let drive := set_speed (of_int 0) drive in
    (TWIST_ZERO, drive)
  else
    let driveSpeed := div (mul (diagonalHalf platform) (ang_z angular)) (radius wheel) in
    let drive := set_speed driveSpeed drive in
    let drive :=
      if wheelPos_eqb (wheelPos wheel) WHEEL_POS_TOP_LEFT
         || wheelPos_eqb (wheelPos wheel) WHEEL_POS_BOTTOM_LEFT
      then set_speed (mul (speed drive) (of_int (-1))) drive else drive in
    let steer := asin (div (breadthHalf platform) (diagonalHalf platform)) in
    let steer :=
      flipIf (wheelPos_eqb (wheelPos wheel) WHEEL_POS_TOP_LEFT
              || wheelPos_eqb (wheelPos wheel) WHEEL_POS_BOTTOM_RIGHT) steer in
    let drive := set_steerAngle steer drive in
    let drive := set_speed
                   (mul (mul (div (speed drive) (mul lit_2_0 M_PI)) lit_360_0)
                      SHAFT_TO_ENCODER_FACTOR) drive in
    let drive := set_steerAngle
                   (mul (div (steerAngle drive) (mul lit_2_0 M_PI)) lit_360_0) drive in
    let drive := set_posAngle
                   (add (sub (of_int 90) (steerAngle drive)) (servCalib wheel)) drive in
    (TWIST_OK, drive).

Definition solvInArcTurn (linear : LinearVels_t) (angular : AngularVels_t)
    (platform : PlatformDimensions_t) (wheel : WheelParams_t)
    (drive : DriveParams_t) : TwistError_t * DriveParams_t :=
  if eqb (ang_z angular) (of_int 0) then
    let drive := set_steerAngle (of_int 0) drive in
    let drive := set_speed (of_int 0) drive in
    (TWIST_ZERO, drive)
  else
    let bodyRadius := solvBodyRadius linear angular in
    if ltb bodyRadius PLATFORM_RADIUS_LIM then
      let drive := set_steerAngle (of_int 0) drive in
      let drive := set_speed (of_int 0) drive in
      (TWIST_EX_LIM, drive)
    else
      let arcRadius :=
        sqrt (add (pow (sub bodyRadius (lengthHalf platform)) (of_int 2))
                (mul (breadthHalf platform) (breadthHalf platform))) in
      let steer := asin (div (breadthHalf platform) arcRadius) in
      let steer :=
        if gtb (ang_z angular) (of_int 0) then
          let steer := flipIf (wheelPos_eqb (wheelPos wheel) WHEEL_POS_BOTTOM_LEFT
                               && gtb (lin_x linear) (of_int 0)) steer in
          flipIf (wheelPos_eqb (wheelPos wheel) WHEEL_POS_TOP_RIGHT
                  && ltb (lin_x linear) (of_int 0)) steer
        else if ltb (ang_z angular) (of_int 0) then
          let steer := flipIf (wheelPos_eqb (wheelPos wheel) WHEEL_POS_TOP_RIGHT
                               && gtb (lin_x linear) (of_int 0)) steer in
          flipIf (wheelPos_eqb (wheelPos wheel) WHEEL_POS_BOTTOM_LEFT
                  && ltb (lin_x linear) (of_int 0)) steer
        else steer in
      let drive := set_steerAngle steer drive in
      let angular_z := fabs (ang_z angular) in
      let driveSpeed := div (mul arcRadius angular_z) (radius wheel) in
      let driveSpeed :=
        if ltb (lin_x linear) (of_int 0) then mul driveSpeed (of_int (-1))
        else driveSpeed in
      let drive := set_speed driveSpeed drive in
      let drive := set_speed
                     (mul (mul (div (speed drive) (mul lit_2_0 M_PI)) lit_360_0)
                        SHAFT_TO_ENCODER_FACTOR) drive in
      let drive := set_steerAngle
                     (mul (div (steerAngle drive) (mul lit_2_0 M_PI)) lit_360_0) drive in
      let drive := set_posAngle
                     (add (sub (of_int 90) (steerAngle drive)) (servCalib wheel)) drive in
      (TWIST_OK, drive).

Definition solvOutArcTurn (linear : LinearVels_t) (angular : AngularVels_t)
    (platform : PlatformDimensions_t) (wheel : WheelParams_t)
    (drive : DriveParams_t) : TwistError_t * DriveParams_t :=
  if eqb (ang_z angular) (of_int 0) then
    let drive := set_steerAngle (of_int 0) drive in
    let drive := set_speed (of_int 0) drive in
    (TWIST_ZERO, drive)
  else
    let bodyRadius := solvBodyRadius linear angular in
    if ltb bodyRadius PLATFORM_RADIUS_LIM then
      let drive := set_steerAngle (of_int 0) drive in
      let drive := set_speed (of_int 0) drive in
      (TWIST_EX_LIM, drive)
    else
      let arcRadius :=
        sqrt (add (mul (breadthHalf platform) (breadthHalf platform))
                (pow (add (lengthHalf platform) bodyRadius) (of_int 2))) in
      let steer := asin (div (breadthHalf platform) arcRadius) in
      let steer :=
        if gtb (ang_z angular) (of_int 0) then
          let steer := flipIf (wheelPos_eqb (wheelPos wheel) WHEEL_POS_BOTTOM_RIGHT
                               && gtb (lin_x linear) (of_int 0)) steer in
          flipIf (wheelPos_eqb (wheelPos wheel) WHEEL_POS_TOP_LEFT
                  && ltb (lin_x linear) (of_int 0)) steer
        else
          let steer := flipIf (wheelPos_eqb (wheelPos wheel) WHEEL_POS_TOP_LEFT
                               && gtb (lin_x linear) (of_int 0)) steer in
          flipIf (wheelPos_eqb (wheelPos wheel) WHEEL_POS_BOTTOM_RIGHT
                  && ltb (lin_x linear) (of_int 0)) steer in
      let drive := set_steerAngle steer drive in
      let angular_z := fabs (ang_z angular) in
      let driveSpeed := div (mul arcRadius angular_z) (radius wheel) in
      let driveSpeed :=
        if ltb (lin_x linear) (of_int 0) then mul driveSpeed (of_int (-1))
        else driveSpeed in
      let drive := set_speed driveSpeed drive in
      let drive := set_speed
                     (mul (mul (div (speed drive) (mul lit_2_0 M_PI)) lit_360_0)
                        SHAFT_TO_ENCODER_FACTOR) drive in
      let drive := set_steerAngle
                     (mul (div (steerAngle drive) (mul lit_2_0 M_PI)) lit_360_0) drive in
      let drive := set_posAngle
                     (add (sub (of_int 90) (steerAngle drive)) (servCalib wheel)) drive in
      (TWIST_OK, drive).

(** Which of the two arc solvers a wheel gets. *)
Inductive ArcSide : Type := InnerArc | OuterArc.

Definition arcSide (linear : LinearVels_t) (angular : AngularVels_t)
    (wheel : WheelParams_t) : ArcSide :=
  let pos := wheelPos wheel in
  if gtb (ang_z angular) (of_int 0)
     && (wheelPos_eqb pos WHEEL_POS_TOP_LEFT || wheelPos_eqb pos WHEEL_POS_BOTTOM_LEFT)
  then (if gtb (lin_x linear) (of_int 0) then InnerArc else OuterArc)
  else if gtb (ang_z angular) (of_int 0)
          && (wheelPos_eqb pos WHEEL_POS_TOP_RIGHT
              || wheelPos_eqb pos WHEEL_POS_BOTTOM_RIGHT)
  then (if gtb (lin_x linear) (of_int 0) then OuterArc else InnerArc)
  else if ltb (ang_z angular) (of_int 0)
          && (wheelPos_eqb pos WHEEL_POS_TOP_RIGHT
              || wheelPos_eqb pos WHEEL_POS_BOTTOM_RIGHT)
  then (if gtb (lin_x linear) (of_int 0) then InnerArc else OuterArc)
  else (if gtb (lin_x linear) (of_int 0) then OuterArc else InnerArc).

Definition solvArcTurn (linear : LinearVels_t) (angular : AngularVels_t)
    (platform : PlatformDimensions_t) (wheel : WheelParams_t)
    (drive : DriveParams_t) : TwistError_t * DriveParams_t :=
  match arcSide linear angular wheel with
  | InnerArc => solvInArcTurn linear angular platform wheel drive
  | OuterArc => solvOutArcTurn linear angular platform wheel drive
  end.

Definition solvStrafe (linear : LinearVels_t) (platform : PlatformDimensions_t)
    (wheel : WheelParams_t) (drive : DriveParams_t) : TwistError_t * DriveParams_t :=
  let dirAngle := atan2 (lin_x linear) (neg (lin_y linear)) in
  let steer :=
    if geb dirAngle (of_int 0) && leb dirAngle M_PI_2 then neg dirAngle
    else if gtb dirAngle M_PI_2 && leb dirAngle M_PI then sub dirAngle M_PI_2
    else if ltb dirAngle (of_int 0) && geb dirAngle (neg M_PI_2) then neg dirAngle
    else add dirAngle M_PI_2 in
  let drive := set_steerAngle (mul (div steer (mul lit_2_0 M_PI)) lit_360_0) drive in
  let drive := set_posAngle
                 (add (sub (of_int 90) (steerAngle drive)) (servCalib wheel)) drive in
  let drive := set_speed
                 (sqrt (add (mul (lin_x linear) (lin_x linear))
                          (mul (lin_y linear) (lin_y linear)))) drive in
  let drive :=
    if ltb dirAngle (of_int 0) then set_speed (mul (speed drive) (of_int (-1))) drive
    else drive in
  let drive := set_speed
                 (mul (mul (div (speed drive) (mul lit_2_0 M_PI)) lit_360_0)
                    SHAFT_TO_ENCODER_FACTOR) drive in
  (TWIST_OK, drive).

Definition solveTwist (linear : LinearVels_t) (angular : AngularVels_t)
    (platform : PlatformDimensions_t) (wheel : WheelParams_t)
    (drive : DriveParams_t) : TwistError_t * DriveParams_t :=
  let zero := of_int 0 in
  if eqb (lin_x linear) zero && eqb (lin_y linear) zero && eqb (ang_z angular) zero
  then
    let drive := set_steerAngle (of_int 0) drive in
    let drive := set_posAngle (add (of_int 90) (servCalib wheel)) drive in
    let drive := set_speed (of_int 0) drive in
    (TWIST_OK, drive)
  else if neb (lin_x linear) zero && eqb (lin_y linear) zero && eqb (ang_z angular) zero
  then
    let drive := set_steerAngle (of_int 0) drive in
    let drive := set_posAngle (add (of_int 90) (servCalib wheel)) drive in
    let drive := set_speed (div (lin_x linear) (radius wheel)) drive in
    let drive := set_speed
                   (mul (mul (div (speed drive) (mul lit_2_0 M_PI)) lit_360_0)
                      SHAFT_TO_ENCODER_FACTOR) drive in
    let drive := set_steerAngle
                   (mul (div (steerAngle drive) (mul lit_2_0 M_PI)) lit_360_0) drive in
    let drive := set_posAngle
                   (add (sub (of_int 90) (steerAngle drive)) (servCalib wheel)) drive in
    (TWIST_OK, drive)
  else if eqb (lin_x linear) zero && eqb (lin_y linear) zero && neb (ang_z angular) zero
  then solvSpotTurn angular platform wheel drive
  else if neb (lin_x linear) zero && eqb (lin_y linear) zero && neb (ang_z angular) zero
  then solvArcTurn linear angular platform wheel drive
  else if eqb (lin_x linear) zero && neb (lin_y linear) zero && eqb (ang_z angular) zero
  then solvStrafe linear platform wheel drive
  else if neb (lin_x linear) zero && neb (lin_y linear) zero && eqb (ang_z angular) zero
  then solvStrafe linear platform wheel drive
  else (TWIST_UNKNOWN, drive).

End Solver.

End TwistSolver.

(** * Basic facts *)

(** Reduce field reads through the state updates. *)
Ltac gsimpl :=
  cbn [tagFirstMsg tagFinalMsg exchangeSeqCount rxBuffer statusReg tagTxTimestamp1 tagRxTimestamp1 tagTxTimestamp2 txCount rxCount anchorsCount anchorsTimestamps strayStores radio
       set_tagFirstMsg set_tagFinalMsg set_exchangeSeqCount set_rxBuffer
       set_statusReg set_tagTxTimestamp1 set_tagRxTimestamp1 set_tagTxTimestamp2
       set_txCount set_rxCount set_anchorsCount set_anchorsTimestamps
       set_strayStores set_radio
       emit].

Tactic Notation "gsimpl" "in" hyp(H) :=
  cbn [tagFirstMsg tagFinalMsg exchangeSeqCount rxBuffer statusReg tagTxTimestamp1 tagRxTimestamp1 tagTxTimestamp2 txCount rxCount anchorsCount anchorsTimestamps strayStores radio
       set_tagFirstMsg set_tagFinalMsg set_exchangeSeqCount set_rxBuffer
       set_statusReg set_tagTxTimestamp1 set_tagRxTimestamp1 set_tagTxTimestamp2
       set_txCount set_rxCount set_anchorsCount set_anchorsTimestamps
       set_strayStores set_radio
       emit] in H.


Lemma u8_range z : 0 <= u8 z < 256.
Proof. unfold u8. change (2 ^ 8) with 256. apply Z.mod_pos_bound. lia. Qed.

Lemma u8_small z : 0 <= z < 256 -> u8 z = z.
Proof. intros H. unfold u8. change (2 ^ 8) with 256. apply Z.mod_small, H. Qed.

Lemma u64_small z : 0 <= z < 2 ^ 64 -> u64 z = z.
Proof. intros H. unfold u64. apply Z.mod_small, H. Qed.

Lemma u32_range z : 0 <= u32 z < 2 ^ 32.
Proof. unfold u32. apply Z.mod_pos_bound. lia. Qed.

Lemma driverByte_range raw i : 0 <= driverByte raw i < 256.
Proof. apply u8_range. Qed.

Lemma inBounds_true (a : list Z) i :
  inBounds a i = true <-> 0 <= i < Z.of_nat (length a).
Proof. unfold inBounds. rewrite andb_true_iff, Z.leb_le, Z.ltb_lt. tauto. Qed.

Lemma length_poke (a : list Z) i v : length (poke a i v) = length a.
Proof. unfold poke. destruct (inBounds a i); [apply length_insert | reflexivity]. Qed.

Lemma poke_middle (pre post : list Z) x v :
  poke (pre ++ x :: post) (Z.of_nat (length pre)) v = pre ++ v :: post.
Proof.
  unfold poke.
  replace (inBounds (pre ++ x :: post) (Z.of_nat (length pre))) with true.
  - rewrite Nat2Z.id. rewrite insert_app_r_alt by lia.
    rewrite Nat.sub_diag. reflexivity.
  - symmetry. apply inBounds_true. rewrite length_app. cbn [length]. lia.
Qed.

Lemma length_leBytes n v : length (leBytes n v) = n.
Proof. revert v. induction n as [|n IH]; intros v; cbn; [reflexivity|]. now rewrite IH. Qed.

(** Writing [n] bytes over [old] at offset [length pre] puts the
    little-endian bytes of [ts] there and touches nothing else. *)
Lemma writeTsBytes_spec n : forall (pre old post : list Z) ts,
  length old = n ->
  writeTsBytes n (pre ++ old ++ post) (Z.of_nat (length pre)) ts
  = pre ++ leBytes n ts ++ post.
Proof.
  induction n as [|n IH]; intros pre old post ts Hlen.
  - destruct old; [reflexivity | discriminate].
  - destruct old as [|x old]; [discriminate|]. injection Hlen as Hlen.
    cbn [writeTsBytes leBytes app]. rewrite poke_middle.
    replace (Z.of_nat (length pre) + 1) with (Z.of_nat (length (pre ++ [u8 ts])))
      by (rewrite length_app; cbn [length]; lia).
    replace (pre ++ u8 ts :: old ++ post) with ((pre ++ [u8 ts]) ++ old ++ post)
      by (rewrite <- app_assoc; reflexivity).
    rewrite Z.shiftr_div_pow2 by lia. change (2 ^ 8) with 256.
    rewrite (IH _ old post _ Hlen). rewrite <- app_assoc. reflexivity.
Qed.

(** * Timestamp assembly *)

(** One iteration of the assembly loop, as arithmetic. *)
Lemma tsLoopBody_arith tsTab ts i :
  0 <= ts < 2 ^ 56 ->
  tsLoopBody tsTab ts i = ts * 256 + driverByte tsTab i.
Proof.
  intros Hts. unfold tsLoopBody.
  pose proof (driverByte_range tsTab i) as Hb.
  rewrite Z.shiftl_mul_pow2 by lia. change (2 ^ 8) with 256.
  rewrite u64_small by lia.
  rewrite <- Z.lxor_lor, <- Z.add_nocarry_lxor; try reflexivity.
  all: apply Z.bits_inj'; intros n Hn; rewrite Z.land_spec, Z.bits_0.
  all: destruct (Z.lt_ge_cases n 8) as [Hlt|Hge].
  all: try (replace (ts * 256) with (ts * 2 ^ 8) by lia;
            rewrite Z.mul_pow2_bits_low by lia; reflexivity).
  all: replace (Z.testbit (driverByte tsTab i) n) with false;
    [apply andb_false_r|].
  all: symmetry; apply Z.bits_above_log2; [lia|].
  all: destruct (Z.eq_dec (driverByte tsTab i) 0) as [->|Hnz]; [cbn; lia|].
  all: apply Z.log2_lt_pow2; [lia|].
  all: apply Z.lt_le_trans with (2 ^ 8); [lia | apply Z.pow_le_mono_r; lia].
Qed.

(** The assembled value is the little-endian reading of the five bytes. *)
Lemma getRxTimestampU64_value tsTab :
  getRxTimestampU64 tsTab
  = driverByte tsTab 0 + 256 * (driverByte tsTab 1 + 256 * (driverByte tsTab 2
      + 256 * (driverByte tsTab 3 + 256 * driverByte tsTab 4))).
Proof.
  unfold getRxTimestampU64. cbn [fold_left].
  pose proof (driverByte_range tsTab 0). pose proof (driverByte_range tsTab 1).
  pose proof (driverByte_range tsTab 2). pose proof (driverByte_range tsTab 3).
  pose proof (driverByte_range tsTab 4).
  rewrite (tsLoopBody_arith tsTab 0 4) by lia.
  rewrite (tsLoopBody_arith tsTab _ 3) by lia.
  rewrite (tsLoopBody_arith tsTab _ 2) by lia.
  rewrite (tsLoopBody_arith tsTab _ 1) by lia.
  rewrite (tsLoopBody_arith tsTab _ 0) by lia.
  lia.
Qed.

Lemma getTxTimestampU64_value tsTab :
  getTxTimestampU64 tsTab = getRxTimestampU64 tsTab.
Proof. reflexivity. Qed.

(** Assembled timestamps fit in 40 bits. *)
Lemma getRxTimestampU64_range tsTab : 0 <= getRxTimestampU64 tsTab < 2 ^ 40.
Proof.
  rewrite getRxTimestampU64_value.
  pose proof (driverByte_range tsTab 0). pose proof (driverByte_range tsTab 1).
  pose proof (driverByte_range tsTab 2). pose proof (driverByte_range tsTab 3).
  pose proof (driverByte_range tsTab 4).
  change (2 ^ 40) with 1099511627776. lia.
Qed.

Lemma driverByte_leBytes5 V i :
  0 <= i < 5 -> driverByte (leBytes 5 V) i = (V / 256 ^ i) mod 256.
Proof.
  intros Hi. unfold driverByte.
  assert (i = 0 \/ i = 1 \/ i = 2 \/ i = 3 \/ i = 4) as Hcase by lia.
  cbn [leBytes].
  destruct Hcase as [->|[->|[->|[->| ->]]]]; cbv [peek inBounds length];
    cbn [Z.of_nat Z.leb Z.ltb Z.compare Pos.compare Pos.compare_cont
         Pos.of_succ_nat Pos.succ andb Z.to_nat Pos.to_nat Pos.iter_op
         Nat.add lookup list_lookup default id];
    rewrite u8_small by (apply Z.mod_pos_bound; lia);
    rewrite ?Z.div_div by lia; rewrite ?Z.div_1_r; reflexivity.
Qed.

(** C7.  Assembling the five little-endian bytes of a 40-bit value [V]
    (index 4, the most significant byte, is folded in first) gives back
    exactly [V], for the receive and for the transmit timestamp reader;
    both are total functions. *)
Theorem assemble_inverts_le_decomposition (V : Z) :
  0 <= V < 2 ^ 40 ->
  getRxTimestampU64 (leBytes 5 V) = V /\ getTxTimestampU64 (leBytes 5 V) = V.
Proof.
  intros HV.
  enough (getRxTimestampU64 (leBytes 5 V) = V) as H by (split; exact H).
  rewrite getRxTimestampU64_value.
  rewrite !driverByte_leBytes5 by lia.
  change (2 ^ 40) with 1099511627776 in HV.
  change (256 ^ 0) with 1. change (256 ^ 1) with 256.
  change (256 ^ 2) with 65536. change (256 ^ 3) with 16777216.
  change (256 ^ 4) with 4294967296.
  Z.div_mod_to_equations. lia.
Qed.

Lemma assemble_inverts_le_decomposition_witness :
  getRxTimestampU64 (leBytes 5 0xFFF127FF00) = 0xFFF127FF00
  /\ getTxTimestampU64 (leBytes 5 0xFFF127FF00) = 0xFFF127FF00.
Proof. apply (assemble_inverts_le_decomposition 0xFFF127FF00). lia. Defined.

(** * Delayed-transmission arithmetic *)

Lemma testbit_above s k n : 0 <= s < 2 ^ k -> 0 <= k <= n -> Z.testbit s n = false.
Proof.
  intros Hs Hk. destruct (Z.eq_dec s 0) as [->|Hnz]; [apply Z.bits_0|].
  apply Z.bits_above_log2; [lia|].
  apply Z.lt_le_trans with k; [|lia]. apply Z.log2_lt_pow2; lia.
Qed.

(** Masking with [0xFFFFFFFE] clears bit 0 of a 32-bit value. *)
Lemma land_clear_low_bit s : 0 <= s < 2 ^ 32 -> Z.land s 0xFFFFFFFE = s - s mod 2.
Proof.
  intros Hs.
  change 0xFFFFFFFE with (Z.shiftl (Z.ones 31) 1).
  replace (s - s mod 2) with (Z.shiftl (Z.shiftr s 1) 1).
  2:{ rewrite Z.shiftl_mul_pow2, Z.shiftr_div_pow2 by lia.
      change (2 ^ 1) with 2. Z.div_mod_to_equations. lia. }
  apply Z.bits_inj'. intros n Hn.
  rewrite Z.land_spec, !Z.shiftl_spec by lia.
  destruct (Z.eq_dec n 0) as [->|Hn0].
  - rewrite !(Z.testbit_neg_r _ (0 - 1)) by lia. apply andb_false_r.
  - rewrite Z.shiftr_spec by lia. replace (n - 1 + 1) with n by lia.
    destruct (Z.lt_ge_cases n 32).
    + rewrite Z.ones_spec_low by lia. apply andb_true_r.
    + rewrite Z.ones_spec_high by lia. rewrite andb_false_r.
      symmetry. apply (testbit_above s 32); lia.
Qed.

Lemma predictFinalTxTimestamp_arith s a :
  0 <= s < 2 ^ 32 -> 0 <= a < 2 ^ 32 ->
  predictFinalTxTimestamp s a = (s - s mod 2) * 256 + a.
Proof.
  intros Hs Ha. unfold predictFinalTxTimestamp.
  rewrite land_clear_low_bit by lia.
  rewrite Z.shiftl_mul_pow2 by lia. change (2 ^ 8) with 256.
  apply u64_small.
  change (2 ^ 32) with 4294967296 in *.
  change (2 ^ 64) with 18446744073709551616.
  Z.div_mod_to_equations. lia.
Qed.

(** The scheduled time, as arithmetic, for a 40-bit receive timestamp and
    the configured delay. *)
Lemma scheduledFinalTxTime_arith rxTs :
  0 <= rxTs < 2 ^ 40 ->
  scheduledFinalTxTime rxTs RESP_RX_TO_FINAL_TX_DLY_UUS
  = ((rxTs + 249036800) / 256) mod 2 ^ 32.
Proof.
  intros H. unfold scheduledFinalTxTime, u32.
  change (RESP_RX_TO_FINAL_TX_DLY_UUS * UUS_TO_DWT_TIME) with 249036800.
  rewrite u64_small.
  - rewrite Z.shiftr_div_pow2 by lia. reflexivity.
  - change (2 ^ 40) with 1099511627776 in H.
    change (2 ^ 64) with 18446744073709551616. lia.
Qed.

(** What [sendFinal] leaves in the state and in the radio log. *)
Lemma sendFinal_tagSendDelayTime N txstamp st :
  radio (sendFinal N txstamp st)
  = radio st ++
    [ReadTxTimestamp;
     SetDelayedTrxTime
       (scheduledFinalTxTime (peek (anchorsTimestamps st) (N - 1))
          RESP_RX_TO_FINAL_TX_DLY_UUS);
     WriteTxData sizeof_tagFinalMsg (tagFinalMsg (sendFinal N txstamp st));
     WriteTxFctrl sizeof_tagFinalMsg 0 1;
     StartTx true false].
Proof.
  unfold sendFinal, emit. cbn. rewrite <- !app_assoc. reflexivity.
Qed.

Lemma sendFinal_tagTxTimestamp2 N txstamp st :
  tagTxTimestamp2 (sendFinal N txstamp st)
  = predictFinalTxTimestamp
      (scheduledFinalTxTime (peek (anchorsTimestamps st) (N - 1))
         RESP_RX_TO_FINAL_TX_DLY_UUS)
      TX_ANT_DLY.
Proof. reflexivity. Qed.

Lemma sendFinal_tagTxTimestamp1 N txstamp st :
  tagTxTimestamp1 (sendFinal N txstamp st) = getTxTimestampU64 txstamp.
Proof. reflexivity. Qed.

(** C8.  For every 32-bit scheduled time [s] and antenna delay [a] the
    predicted final-TX timestamp is [s] with its low bit cleared, shifted
    left by 8, plus [a], without wrap-around; [dsInitRun] stores that value
    for the scheduled time it programmed and [TX_ANT_DLY].  With a last
    slot of 1_000_000 and the 3800 uus delay the scheduled time is
    [(1_000_000 + 3800*65536) >> 8], and the prediction from it with
    antenna delay 16436 is [((scheduledTime & 0xFFFFFFFE) << 8) + 16436]. *)
Theorem predicted_final_tx_timestamp (N s a : Z) :
  0 <= s < 2 ^ 32 -> 0 <= a < 2 ^ 32 ->
  predictFinalTxTimestamp s a = Z.shiftl (Z.land s 0xFFFFFFFE) 8 + a
  /\ predictFinalTxTimestamp s a = (s - s mod 2) * 256 + a
  /\ scheduledFinalTxTime 1000000 3800 = Z.shiftr (1000000 + 3800 * 65536) 8
  /\ predictFinalTxTimestamp (scheduledFinalTxTime 1000000 3800) 16436
     = Z.shiftl (Z.land (scheduledFinalTxTime 1000000 3800) 0xFFFFFFFE) 8 + 16436
  /\ (forall txstamp st,
        peek (anchorsTimestamps st) (N - 1) = 1000000 ->
        In (SetDelayedTrxTime (Z.shiftr (1000000 + 3800 * 65536) 8))
           (radio (sendFinal N txstamp st))
        /\ tagTxTimestamp2 (sendFinal N txstamp st)
           = Z.shiftl (Z.land (Z.shiftr (1000000 + 3800 * 65536) 8) 0xFFFFFFFE) 8
             + 16436)
  /\ (forall txstamp st,
        tagTxTimestamp2 (sendFinal N txstamp st)
        = predictFinalTxTimestamp
            (scheduledFinalTxTime (peek (anchorsTimestamps st) (N - 1))
               RESP_RX_TO_FINAL_TX_DLY_UUS)
            TX_ANT_DLY).
Proof.
  intros Hs Ha.
  assert (predictFinalTxTimestamp s a = (s - s mod 2) * 256 + a) as Harith
    by (apply predictFinalTxTimestamp_arith; assumption).
  repeat split.
  - rewrite Harith, land_clear_low_bit by lia.
    rewrite Z.shiftl_mul_pow2 by lia. reflexivity.
  - exact Harith.
  - rewrite sendFinal_tagSendDelayTime, H. apply in_or_app. right.
    right. left. reflexivity.
  - rewrite sendFinal_tagTxTimestamp2, H. reflexivity.
Qed.

Lemma predicted_final_tx_timestamp_witness :
  predictFinalTxTimestamp 976706 16436 = 250053172.
Proof.
  destruct (predicted_final_tx_timestamp 3 976706 16436) as (_ & H & _);
    [lia | lia |].
  rewrite H. reflexivity.
Defined.

(** * The response-collection loop preserves what its body preserves *)

Section LoopInvariant.
Context {regs : DecaRegs}.
Variable N : Z.
Variable P : Globals -> Prop.
Hypothesis P_status : forall st v, P st -> P (set_statusReg v st).
Hypothesis P_body : forall ev st, P st -> P (loopBody N ev st).

Lemma responseLoop_invariant reads :
  forall st, P st -> P (loopState (responseLoop N reads st)).
Proof using P_status P_body.
  induction reads as [|ev reads IH]; intros st Hst; cbn [responseLoop].
  - destruct (anchorsCount st <? N); exact Hst.
  - destruct (anchorsCount st <? N); [|exact Hst].
    destruct (rxEventPending _); apply IH; auto.
Qed.

End LoopInvariant.

(** * Timestamp bounds *)

Section StampBounds.
Context {regs : DecaRegs}.
Variable N : Z.

(** [stampsBounded] reads four fields only. *)
Lemma stampsBounded_same st st' :
  tagTxTimestamp1 st' = tagTxTimestamp1 st ->
  tagRxTimestamp1 st' = tagRxTimestamp1 st ->
  anchorsTimestamps st' = anchorsTimestamps st ->
  tagTxTimestamp2 st' = tagTxTimestamp2 st ->
  stampsBounded st -> stampsBounded st'.
Proof. unfold stampsBounded. intros -> -> -> ->. tauto. Qed.

Lemma stampsBounded_initGlobals : stampsBounded (initGlobals N).
Proof.
  unfold stampsBounded, initGlobals. gsimpl.
  repeat split; try lia. apply Forall_replicate. lia.
Qed.

Lemma stampsBounded_sendPoll st : stampsBounded st -> stampsBounded (sendPoll st).
Proof.
  intros (H1 & H2 & H3 & H4). unfold stampsBounded, sendPoll. gsimpl.
  repeat split; try lia. apply Forall_replicate. lia.
Qed.

Lemma stampsBounded_takeRxTimestamp ev st :
  stampsBounded st -> stampsBounded (takeRxTimestamp ev st).
Proof.
  intros (H1 & H2 & H3 & H4).
  pose proof (getRxTimestampU64_range (ev_rxstamp ev)) as Hrx.
  unfold stampsBounded, takeRxTimestamp. gsimpl. tauto.
Qed.

Lemma stampsBounded_recordResponse anchorID st :
  stampsBounded st -> stampsBounded (recordResponse N anchorID st).
Proof.
  intros Hst. unfold recordResponse. destruct (N <? anchorID); [exact Hst|].
  destruct Hst as (H1 & H2 & H3 & H4).
  unfold stampsBounded, storeAnchorTimestamp.
  destruct (inBounds _ _); gsimpl; repeat split; try lia; try assumption.
  apply Forall_insert; assumption.
Qed.

Lemma stampsBounded_rearmReceiver st :
  stampsBounded st -> stampsBounded (rearmReceiver N st).
Proof.
  unfold rearmReceiver. destruct (_ <? _); [|tauto].
  apply stampsBounded_same; reflexivity.
Qed.

Lemma stampsBounded_receiveFrame ev st :
  stampsBounded st -> stampsBounded (receiveFrame ev st).
Proof.
  unfold receiveFrame.
  apply stampsBounded_same; gsimpl; destruct (_ <=? RX_BUF_LEN); reflexivity.
Qed.

Lemma stampsBounded_loopBody ev st :
  stampsBounded st -> stampsBounded (loopBody N ev st).
Proof.
  intros Hst. unfold loopBody. destruct (negb _); [|exact Hst].
  unfold onGoodFrame.
  pose proof (stampsBounded_receiveFrame ev st Hst) as Hrecv.
  destruct (memcmp_eq _ _ _).
  - unfold onResponse.
    apply stampsBounded_rearmReceiver, stampsBounded_recordResponse,
      stampsBounded_takeRxTimestamp, Hrecv.
  - revert Hrecv. apply stampsBounded_same; reflexivity.
Qed.

Lemma stampsBounded_responseLoop reads st :
  stampsBounded st -> stampsBounded (loopState (responseLoop N reads st)).
Proof.
  apply responseLoop_invariant.
  - intros s v Hs. exact Hs.
  - intros ev s. apply stampsBounded_loopBody.
Qed.

Lemma stampsBounded_sendFinal txstamp st :
  stampsBounded st -> stampsBounded (sendFinal N txstamp st).
Proof.
  intros (H1 & H2 & H3 & H4). unfold stampsBounded.
  rewrite sendFinal_tagTxTimestamp2, sendFinal_tagTxTimestamp1.
  change (tagRxTimestamp1 (sendFinal N txstamp st)) with (tagRxTimestamp1 st).
  change (anchorsTimestamps (sendFinal N txstamp st)) with (anchorsTimestamps st).
  repeat split; try apply getRxTimestampU64_range; try lia; try assumption.
  all: set (s := scheduledFinalTxTime _ _).
  all: assert (0 <= s < 2 ^ 32) as Hs by apply u32_range.
  all: rewrite predictFinalTxTimestamp_arith by (assumption || (unfold TX_ANT_DLY; lia)).
  all: change (2 ^ 32) with 4294967296 in Hs.
  all: change (2 ^ 40) with 1099511627776; unfold TX_ANT_DLY.
  all: Z.div_mod_to_equations; lia.
Qed.

Lemma stampsBounded_afterStartTx txStatus txReads st :
  stampsBounded st -> stampsBounded (stateOf (afterStartTx txStatus txReads st)).
Proof.
  intros Hst. unfold afterStartTx.
  destruct (_ =? _); [destruct (txDoneSeen _)|]; cbn [stateOf]; exact Hst.
Qed.

Lemma stampsBounded_dsInitRun inp st :
  stampsBounded st -> stampsBounded (stateOf (dsInitRun N inp st)).
Proof.
  intros Hst. unfold dsInitRun.
  pose proof (stampsBounded_responseLoop (in_reads inp) _
                (stampsBounded_sendPoll st Hst)) as Hloop.
  destruct (responseLoop N (in_reads inp) (sendPoll st)) as [st'|st'];
    cbn [loopState] in Hloop; [exact Hloop|].
  apply stampsBounded_afterStartTx, stampsBounded_sendFinal, Hloop.
Qed.

Lemma stampsBounded_taskLoop inputs :
  forall st, stampsBounded st ->
  stampsBounded (stateOf (taskLoop N inputs st)).
Proof.
  induction inputs as [|inp inputs IH]; intros st Hst; cbn [taskLoop].
  - exact Hst.
  - pose proof (stampsBounded_dsInitRun inp st Hst) as Hrun.
    destruct (dsInitRun N inp st); cbn [stateOf] in *; auto.
Qed.

Lemma stampsBounded_task inputs :
  stampsBounded (stateOf (ds_initiator_task_function N inputs (initGlobals N))).
Proof.
  unfold ds_initiator_task_function. apply stampsBounded_taskLoop.
  exact stampsBounded_initGlobals.
Qed.

End StampBounds.

(** C5 (as amended).  In every state the task can reach from the initial
    one, whatever the radio supplies, the assembled poll-TX and
    response-RX timestamps and all table slots have bits 40 and above
    clear; the predicted final-TX timestamp lies below
    [2^40 + TX_ANT_DLY], so its bits 41 and above are clear. *)
Theorem timestamps_bounded (regs : DecaRegs) (N : Z) (inputs : list RoundInput) :
  let st := stateOf (ds_initiator_task_function N inputs (initGlobals N)) in
  stampsBounded st
  /\ (forall n, 40 <= n ->
        Z.testbit (tagTxTimestamp1 st) n = false
        /\ Z.testbit (tagRxTimestamp1 st) n = false
        /\ Forall (fun t => Z.testbit t n = false) (anchorsTimestamps st))
  /\ (forall n, 41 <= n -> Z.testbit (tagTxTimestamp2 st) n = false).
Proof.
  intros st.
  assert (stampsBounded st) as Hst by apply stampsBounded_task.
  split; [exact Hst|].
  destruct Hst as (H1 & H2 & H3 & H4). split.
  - intros n Hn. repeat split.
    + apply (testbit_above _ 40); lia.
    + apply (testbit_above _ 40); lia.
    + eapply Forall_impl; [exact H3|]. cbn beta. intros t Ht.
      apply (testbit_above _ 40); lia.
  - intros n Hn. apply (testbit_above _ 41); [|lia].
    unfold TX_ANT_DLY in H4.
    change (2 ^ 40) with 1099511627776 in H4.
    change (2 ^ 41) with 2199023255552. lia.
Qed.

(** C5, counterexample.  With the last anchor's response received at
    device time [0xFFF127FF00] the scheduled time is [0xFFFFFFFF] and the
    predicted final-TX timestamp stored by [dsInitRun] is
    [2^40 + 15924]: bit 40 is set. *)
Lemma predicted_final_tx_sets_bit_40 :
  let o := dsInitRun (regs := dw1000) 3 lateRound (initGlobals 3) in
  pastResponseLoop o = true
  /\ In (SetDelayedTrxTime 0xFFFFFFFF) (radio (stateOf o))
  /\ tagTxTimestamp2 (stateOf o) = 2 ^ 40 + 15924
  /\ Z.testbit (tagTxTimestamp2 (stateOf o)) 40 = true
  /\ predictFinalTxTimestamp 0xFFFFFFFF TX_ANT_DLY = 2 ^ 40 + 15924.
Proof.
  vm_compute. repeat split; auto 30.
Qed.

(** * The response-collection loop *)

Lemma txFrames_app a b : txFrames (a ++ b) = txFrames a ++ txFrames b.
Proof.
  induction a as [|c a IH]; [reflexivity|].
  destruct c; cbn [txFrames app]; rewrite ?IH; reflexivity.
Qed.

Section LoopFacts.
Context {regs : DecaRegs}.
Variable N : Z.

Lemma responseLoop_app a : forall b st,
  responseLoop N (a ++ b) st
  = match responseLoop N a st with
    | Spinning st' => responseLoop N b st'
    | Exited st' => Exited st'
    end.
Proof.
  induction a as [|ev a IH]; intros b st; cbn [app responseLoop].
  - destruct (anchorsCount st <? N) eqn:E; [reflexivity|].
    destruct b; cbn [responseLoop]; rewrite E; reflexivity.
  - destruct (anchorsCount st <? N); [|reflexivity].
    destruct (rxEventPending _); apply IH.
Qed.

(** The loop is left only by its exit test. *)
Lemma responseLoop_result reads : forall st,
  match responseLoop N reads st with
  | Spinning st' => anchorsCount st' < N
  | Exited st' => N <= anchorsCount st'
  end.
Proof.
  induction reads as [|ev reads IH]; intros st; cbn [responseLoop].
  - destruct (Z.ltb_spec (anchorsCount st) N); assumption.
  - destruct (Z.ltb_spec (anchorsCount st) N); [|assumption].
    destruct (rxEventPending _); apply IH.
Qed.

Lemma length_readrxdata buf len chip :
  length (readrxdata buf len chip) = length buf.
Proof.
  unfold readrxdata. generalize (seqZ 0 len). intros l. revert buf.
  induction l as [|i l IH]; intros buf; cbn [fold_left]; [reflexivity|].
  rewrite IH. apply length_poke.
Qed.

Lemma receiveFrame_frame ev st :
  anchorsCount (receiveFrame ev st) = anchorsCount st
  /\ anchorsTimestamps (receiveFrame ev st) = anchorsTimestamps st
  /\ strayStores (receiveFrame ev st) = strayStores st
  /\ rxCount (receiveFrame ev st) = rxCount st
  /\ tagRxTimestamp1 (receiveFrame ev st) = tagRxTimestamp1 st
  /\ sameTxSide st (receiveFrame ev st).
Proof.
  unfold receiveFrame, sameTxSide. gsimpl.
  destruct (_ <=? RX_BUF_LEN); gsimpl;
    rewrite ?txFrames_app, ?length_poke, ?length_readrxdata;
    cbn [txFrames]; rewrite ?app_nil_r; repeat split; reflexivity.
Qed.

Lemma onResponse_frame ev st : sameTxSide st (onResponse N ev st).
Proof.
  unfold onResponse, rearmReceiver, recordResponse, takeRxTimestamp, sameTxSide.
  gsimpl. destruct (N <? _); gsimpl.
  - destruct (_ <? N); gsimpl; rewrite ?txFrames_app; cbn [txFrames];
      rewrite ?app_nil_r; repeat split; reflexivity.
  - unfold storeAnchorTimestamp.
    destruct (_ <? N); destruct (inBounds _ _); gsimpl;
      rewrite ?txFrames_app, ?length_insert; cbn [txFrames];
      rewrite ?app_nil_r; repeat split; reflexivity.
Qed.

Lemma sameTxSide_trans a b c : sameTxSide a b -> sameTxSide b c -> sameTxSide a c.
Proof.
  unfold sameTxSide. intros (A1 & A2 & A3 & A4 & A5 & A6) (B1 & B2 & B3 & B4 & B5 & B6).
  repeat split; congruence.
Qed.

Lemma loopBody_frame ev st : sameTxSide st (loopBody N ev st).
Proof.
  unfold loopBody. destruct (negb _); [|repeat split; reflexivity].
  unfold onGoodFrame.
  destruct (receiveFrame_frame ev st) as (_ & _ & _ & _ & _ & Hrecv).
  destruct (memcmp_eq _ _ _).
  - eapply sameTxSide_trans; [exact Hrecv | apply onResponse_frame].
  - eapply sameTxSide_trans; [exact Hrecv|].
    unfold sameTxSide. gsimpl. rewrite txFrames_app. cbn [txFrames].
    rewrite app_nil_r. repeat split; reflexivity.
Qed.

Lemma responseLoop_frame reads st :
  sameTxSide st (loopState (responseLoop N reads st)).
Proof.
  apply (responseLoop_invariant N (sameTxSide st)).
  - intros s v Hs. exact Hs.
  - intros ev s Hs. eapply sameTxSide_trans; [exact Hs | apply loopBody_frame].
  - repeat split; reflexivity.
Qed.

(** One run of the body counts at most one response. *)
Lemma loopBody_anchorsCount ev st :
  anchorsCount (loopBody N ev st) = anchorsCount st
  \/ anchorsCount (loopBody N ev st) = anchorsCount st + 1.
Proof.
  unfold loopBody. destruct (negb _); [|left; reflexivity].
  unfold onGoodFrame.
  destruct (receiveFrame_frame ev st) as (Hc & _).
  destruct (memcmp_eq _ _ _); [|left; exact Hc].
  unfold onResponse, rearmReceiver, recordResponse, takeRxTimestamp. gsimpl.
  destruct (N <? _); gsimpl.
  - destruct (_ <? N); gsimpl; left; exact Hc.
  - unfold storeAnchorTimestamp.
    destruct (_ <? N); destruct (inBounds _ _); gsimpl; right; lia.
Qed.

Lemma responseLoop_exit_count reads : forall st,
  anchorsCount st <= N ->
  forall st', responseLoop N reads st = Exited st' -> anchorsCount st' = N.
Proof.
  induction reads as [|ev reads IH]; intros st Hle st'; cbn [responseLoop].
  - destruct (Z.ltb_spec (anchorsCount st) N); [discriminate|].
    intros [= <-]. lia.
  - destruct (Z.ltb_spec (anchorsCount st) N); [|intros [= <-]; lia].
    destruct (rxEventPending _); apply IH; gsimpl; [|lia].
    destruct (loopBody_anchorsCount ev (set_statusReg (u32 (ev_status ev)) st))
      as [E|E]; rewrite E; gsimpl; lia.
Qed.

(** Status reads without RXFCG leave the loop where it is. *)
Lemma responseLoop_idle idle : forall st,
  Forall noGoodFrame idle ->
  anchorsCount st < N ->
  exists st', responseLoop N idle st = Spinning st'
    /\ anchorsCount st' = anchorsCount st
    /\ anchorsTimestamps st' = anchorsTimestamps st
    /\ rxCount st' = rxCount st
    /\ radio st' = radio st.
Proof.
  induction idle as [|ev idle IH]; intros st Hidle Hlt; cbn [responseLoop].
  - exists st. destruct (Z.ltb_spec (anchorsCount st) N); [|lia].
    repeat split; reflexivity.
  - destruct (Z.ltb_spec (anchorsCount st) N); [|lia].
    apply Forall_cons in Hidle as [Hev Hidle]. unfold noGoodFrame in Hev.
    set (st1 := set_statusReg (u32 (ev_status ev)) st).
    assert (loopBody N ev st1 = st1) as Hbody.
    { unfold loopBody. subst st1. gsimpl. rewrite Hev. reflexivity. }
    rewrite Hbody.
    destruct (IH st1 Hidle Hlt) as (st' & Hrun & H1 & H2 & H3 & H4).
    exists st'. destruct (rxEventPending _); repeat split; assumption.
Qed.

End LoopFacts.

Section RoundFacts.
Context {regs : DecaRegs}.
Variable N : Z.

Lemma sendPoll_anchorsCount st : anchorsCount (sendPoll st) = 0.
Proof. reflexivity. Qed.

Lemma sendPoll_txFrames st :
  txFrames (radio (sendPoll st))
  = txFrames (radio st) ++ [poke (tagFirstMsg st) EX_SEQ_COUNT_IDX (exchangeSeqCount st)].
Proof. unfold sendPoll. gsimpl. rewrite txFrames_app. reflexivity. Qed.

Lemma pastResponseLoop_afterStartTx txStatus txReads st :
  pastResponseLoop (afterStartTx txStatus txReads st) = true.
Proof.
  unfold afterStartTx. destruct (_ =? _); [destruct (txDoneSeen _)|]; reflexivity.
Qed.

(** The tail of [dsInitRun] only appends the clearing of TXFRS to the
    log; every other variable is as [sendFinal] left it. *)
Lemma afterStartTx_state txStatus txReads st :
  let st' := stateOf (afterStartTx txStatus txReads st) in
  anchorsCount st' = anchorsCount st
  /\ exchangeSeqCount st' = exchangeSeqCount st
  /\ tagFirstMsg st' = tagFirstMsg st
  /\ tagFinalMsg st' = tagFinalMsg st
  /\ anchorsTimestamps st' = anchorsTimestamps st
  /\ rxBuffer st' = rxBuffer st
  /\ txFrames (radio st') = txFrames (radio st)
  /\ (radio st' = radio st
      \/ radio st' = radio st ++ [Write32bitReg_SYS_STATUS SYS_STATUS_TXFRS])
  /\ tagTxTimestamp1 st' = tagTxTimestamp1 st
  /\ tagTxTimestamp2 st' = tagTxTimestamp2 st.
Proof.
  unfold afterStartTx.
  destruct (_ =? _); [destruct (txDoneSeen _)|]; cbn [stateOf]; gsimpl;
    rewrite ?txFrames_app; cbn [txFrames]; rewrite ?app_nil_r;
    repeat split; auto.
Qed.

End RoundFacts.

(** C9, the code at the failing input.  Three anchors are configured;
    the first response of the round carries anchor number 0, anchors 1 and
    2 answer after it and anchor 3 never does.  No response has been
    counted when the first frame arrives: the bounds check of line 170 lets
    the number 0 through and line 173 stores the reception timestamp at
    [anchorsTimestamps[-1]], outside the table, inside the collection loop.
    C gives no meaning to that store, so the source no longer determines
    what the loop condition reads afterwards.  Even when the store hits no
    variable of the program the frame is counted as a response, and the
    loop is left after the two frames that follow: the final frame goes out
    although the slot of anchor 3 was never written. *)
Lemma final_sent_with_a_slot_never_written :
  let st0 := sendPoll (regs := dw1000) (initGlobals 3) in
  let first := responseLoop (regs := dw1000) 3 firstZeroIdRead st0 in
  let o := dsInitRun (regs := dw1000) 3 zeroFirstRound (initGlobals 3) in
  anchorsCount st0 = 0
  /\ strayStores st0 = []
  /\ strayStores (loopState first) = [(-1, 0x0B)]
  /\ pastResponseLoop o = true
  /\ peek (anchorsTimestamps (stateOf o)) 2 = 0
  /\ length (txFrames (radio (stateOf o))) = 2%nat.
Proof. vm_compute. repeat split. Qed.

(** * The final frame *)

Lemma length_concat_leBytes4 (l : list Z) :
  length (concat (map (leBytes 4) l)) = (4 * length l)%nat.
Proof.
  induction l as [|x l IH]; [reflexivity|].
  cbn [map concat]. rewrite length_app, IH, length_leBytes. cbn [length]. lia.
Qed.

(** [finalMsgSetRxTs] over a region of [4 * n] bytes starting at
    [length pre]: the first [n] slots of the table, four little-endian
    bytes each, in slot order. *)
Lemma finalMsgSetRxTs_slots (table pre : list Z) (n : nat) :
  forall old post : list Z,
  length old = (4 * n)%nat -> (n <= length table)%nat ->
  fold_left (finalMsgSetRxTs_slot (Z.of_nat (length pre)) table)
    (seqZ 0 (Z.of_nat n)) (pre ++ old ++ post)
  = pre ++ concat (map (leBytes 4) (take n table)) ++ post.
Proof.
  induction n as [|n IH]; intros old post Hold Hn.
  - destruct old; [|discriminate]. reflexivity.
  - rewrite seqZ_S, fold_left_app. cbn [fold_left]. rewrite Z.add_0_l.
    rewrite <- (take_drop (4 * n) old), <- app_assoc.
    rewrite IH by (rewrite ?length_take_le; lia).
    destruct (lookup_lt_is_Some_2 table n) as [x Hx]; [lia|].
    rewrite (take_S_r _ _ _ Hx), map_app, concat_app. cbn [map concat].
    rewrite app_nil_r, <- !app_assoc.
    unfold finalMsgSetRxTs_slot.
    replace (Z.to_nat ((Z.of_nat n + 1) * FINAL_MSG_TS_LEN - Z.of_nat n * 4))
      with 4%nat by (unfold FINAL_MSG_TS_LEN; lia).
    replace (peek table (Z.of_nat n)) with x.
    2:{ unfold peek.
        replace (inBounds table (Z.of_nat n)) with true
          by (symmetry; apply inBounds_true; lia).
        rewrite Nat2Z.id, Hx. reflexivity. }
    rewrite (app_assoc pre).
    replace (Z.of_nat (length pre) + Z.of_nat n * 4)
      with (Z.of_nat (length (pre ++ concat (map (leBytes 4) (take n table))))).
    2:{ rewrite length_app, length_concat_leBytes4, length_take_le by lia. lia. }
    rewrite writeTsBytes_spec by (rewrite length_drop; lia).
    rewrite <- app_assoc. reflexivity.
Qed.

(** [sendFinal] over a final frame whose payload is split into the three
    timestamp regions and a remainder. *)
Lemma sendFinal_tagFinalMsg_parts N txstamp st seq (p1 p2 p3 rest : list Z) :
  0 <= N ->
  length p1 = 4%nat -> length p2 = 4%nat -> length p3 = (4 * Z.to_nat N)%nat ->
  length (anchorsTimestamps st) = Z.to_nat N ->
  tagFinalMsg st = finalHeader seq ++ p1 ++ p2 ++ p3 ++ rest ->
  let st' := sendFinal N txstamp st in
  tagFinalMsg st'
  = finalHeader (exchangeSeqCount st')
      ++ leBytes 4 (tagTxTimestamp1 st')
      ++ leBytes 4 (tagTxTimestamp2 st')
      ++ concat (map (leBytes 4) (anchorsTimestamps st'))
      ++ rest.
Proof.
  intros HN H1 H2 H3 Htab Hmsg st'.
  subst st'. unfold sendFinal. gsimpl. rewrite Hmsg.
  set (ts1 := getTxTimestampU64 txstamp).
  set (ts2 := predictFinalTxTimestamp _ _).
  unfold finalMsgSetTs, finalMsgSetRxTs.
  change (Z.to_nat FINAL_MSG_TS_LEN) with 4%nat.
  (* poll-TX at 10 *)
  change FINAL_MSG_TX_1_IDX with (Z.of_nat (length (finalHeader seq))).
  rewrite writeTsBytes_spec by assumption.
  (* final-TX at 14 *)
  rewrite (app_assoc (finalHeader seq)).
  change FINAL_MSG_TX_2_IDX
    with (Z.of_nat (length (finalHeader seq ++ leBytes 4 ts1))).
  rewrite writeTsBytes_spec by assumption.
  (* the table at 18 *)
  rewrite (app_assoc (finalHeader seq ++ leBytes 4 ts1)).
  change FINAL_MSG_RX_1_IDX
    with (Z.of_nat (length ((finalHeader seq ++ leBytes 4 ts1) ++ leBytes 4 ts2))).
  rewrite <- (Z2Nat.id N) at 1 by lia.
  rewrite finalMsgSetRxTs_slots by lia.
  rewrite <- Htab, firstn_all.
  (* the sequence number at 2 *)
  rewrite <- !app_assoc.
  change (finalHeader seq ++ ?l)
    with ([0x41; 0x88] ++ seq :: ([0xCA; 0xDE; chW; chA; chV; chE; 0x23] ++ l)).
  change EX_SEQ_COUNT_IDX with (Z.of_nat (length [0x41; 0x88])).
  rewrite poke_middle. reflexivity.
Qed.

(** The final frame [sendFinal] builds, for a table of at most three
    slots: header with the advanced sequence number, poll-TX at bytes
    10-13, final-TX at bytes 14-17, the table from byte 18 on. *)
Lemma sendFinal_tagFinalMsg N txstamp st :
  0 <= N <= 3 -> framesIntact N st ->
  let st' := sendFinal N txstamp st in
  exists rest,
    tagFinalMsg st'
    = finalHeader (exchangeSeqCount st')
        ++ leBytes 4 (tagTxTimestamp1 st')
        ++ leBytes 4 (tagTxTimestamp2 st')
        ++ concat (map (leBytes 4) (anchorsTimestamps st'))
        ++ rest
    /\ Z.of_nat (length rest) = 22 - 4 - 4 - 4 * N.
Proof.
  intros HN (Hseq & _ & (seq & payload & Hmsg & Hlen) & Htab) st'.
  exists (drop (4 + 4 + 4 * Z.to_nat N) payload). split.
  - apply (sendFinal_tagFinalMsg_parts N txstamp st seq
             (take 4 payload) (take 4 (drop 4 payload))
             (take (4 * Z.to_nat N) (drop (4 + 4) payload))).
    + lia.
    + rewrite length_take_le; lia.
    + rewrite length_take_le; rewrite ?length_drop; lia.
    + rewrite length_take_le; rewrite ?length_drop; lia.
    + exact Htab.
    + rewrite Hmsg. f_equal.
      rewrite <- (drop_drop payload (4 * Z.to_nat N) (4 + 4)).
      rewrite take_drop.
      rewrite <- (drop_drop payload 4 4). rewrite take_drop.
      rewrite take_drop. reflexivity.
  - rewrite length_drop. lia.
Qed.

Lemma length_writeTsBytes n : forall msg j ts,
  length (writeTsBytes n msg j ts) = length msg.
Proof.
  induction n as [|n IH]; intros msg j ts; cbn [writeTsBytes]; [reflexivity|].
  rewrite IH. apply length_poke.
Qed.

Lemma length_finalMsgSetRxTs N table msg tsField :
  length (finalMsgSetRxTs N table msg tsField) = length msg.
Proof.
  unfold finalMsgSetRxTs. generalize (seqZ 0 N). intros l. revert msg.
  induction l as [|i l IH]; intros msg; cbn [fold_left]; [reflexivity|].
  rewrite IH. apply length_writeTsBytes.
Qed.

Lemma peek_poke_same (a : list Z) i v :
  0 <= i < Z.of_nat (length a) -> peek (poke a i v) i = v.
Proof.
  intros Hi. unfold peek, poke.
  replace (inBounds a i) with true by (symmetry; apply inBounds_true; exact Hi).
  replace (inBounds (<[Z.to_nat i:=v]> a) i) with true
    by (symmetry; apply inBounds_true; rewrite length_insert; exact Hi).
  rewrite list_lookup_insert_eq by lia. reflexivity.
Qed.

(** The sequence byte and the size of the final frame [sendFinal] builds. *)
Lemma sendFinal_seq N txstamp st :
  3 <= Z.of_nat (length (tagFinalMsg st)) ->
  let st' := sendFinal N txstamp st in
  exchangeSeqCount st' = u8 (exchangeSeqCount st + 1)
  /\ peek (tagFinalMsg st') EX_SEQ_COUNT_IDX = u8 (exchangeSeqCount st + 1)
  /\ length (tagFinalMsg st') = length (tagFinalMsg st)
  /\ tagFirstMsg st' = tagFirstMsg st
  /\ txFrames (radio st') = txFrames (radio st) ++ [tagFinalMsg st'].
Proof.
  intros Hlen st'. subst st'. split; [reflexivity|].
  split; [|split; [|split]].
  - unfold sendFinal. gsimpl. apply peek_poke_same.
    rewrite length_finalMsgSetRxTs. unfold finalMsgSetTs.
    rewrite !length_writeTsBytes. unfold EX_SEQ_COUNT_IDX. lia.
  - unfold sendFinal. gsimpl.
    rewrite length_poke, length_finalMsgSetRxTs. unfold finalMsgSetTs.
    rewrite !length_writeTsBytes. reflexivity.
  - reflexivity.
  - rewrite sendFinal_tagSendDelayTime, txFrames_app. reflexivity.
Qed.

Section RoundFrames.
Context {regs : DecaRegs}.
Variable N : Z.

(** The frames one call gives the transmitter, and what it leaves in the
    sequence counter: the poll always, the final frame once the collection
    loop is left. *)
Lemma dsInitRun_txFrames inp st :
  txArraysSized st ->
  let o := dsInitRun N inp st in
  let poll := tagFirstMsg (sendPoll st) in
  peek poll EX_SEQ_COUNT_IDX = exchangeSeqCount st
  /\ tagFirstMsg (stateOf o) = poll
  /\ txArraysSized (stateOf o)
  /\ (pastResponseLoop o = false ->
        txFrames (radio (stateOf o)) = txFrames (radio st) ++ [poll]
        /\ exchangeSeqCount (stateOf o) = exchangeSeqCount st)
  /\ (pastResponseLoop o = true ->
        txFrames (radio (stateOf o))
        = txFrames (radio st) ++ [poll; tagFinalMsg (stateOf o)]
        /\ peek (tagFinalMsg (stateOf o)) EX_SEQ_COUNT_IDX
           = u8 (exchangeSeqCount st + 1)
        /\ exchangeSeqCount (stateOf o) = u8 (exchangeSeqCount st + 1)).
Proof.
  intros (Hfirst & Hfinal) o poll.
  assert (peek poll EX_SEQ_COUNT_IDX = exchangeSeqCount st) as Hpoll.
  { subst poll. unfold sendPoll. gsimpl. apply peek_poke_same.
    unfold sizeof_tagFirstMsg, EX_SEQ_COUNT_IDX in *. lia. }
  assert (Z.of_nat (length poll) = sizeof_tagFirstMsg) as Hpolllen.
  { subst poll. unfold sendPoll. gsimpl. rewrite length_poke. exact Hfirst. }
  split; [exact Hpoll|].
  subst o. unfold dsInitRun.
  pose proof (responseLoop_frame N (in_reads inp) (sendPoll st)) as Hfr.
  destruct (responseLoop N (in_reads inp) (sendPoll st)) as [st1|st1];
    cbn [loopState] in Hfr;
    destruct Hfr as (Hseq & Hmsg1 & Hmsg2 & Htx & _).
  - cbn [stateOf pastResponseLoop].
    split; [exact Hmsg1|]. split; [|split; [|discriminate]].
    + unfold txArraysSized. rewrite Hmsg1, Hmsg2. split; assumption.
    + intros _. rewrite Htx, sendPoll_txFrames. split; [reflexivity|exact Hseq].
  - rewrite pastResponseLoop_afterStartTx.
    destruct (afterStartTx_state (in_txStatus inp) (in_txReads inp)
                (sendFinal N (in_txstamp inp) st1))
      as (_ & A1 & A2 & A3 & _ & _ & A4 & _).
    change (tagFinalMsg (sendPoll st)) with (tagFinalMsg st) in Hmsg2.
    change (exchangeSeqCount (sendPoll st)) with (exchangeSeqCount st) in Hseq.
    destruct (sendFinal_seq N (in_txstamp inp) st1)
      as (Hs & Hbyte & Hlen & Hkeep & Hfr).
    { rewrite Hmsg2, Hfinal. unfold sizeof_tagFinalMsg. lia. }
    unfold txArraysSized. rewrite A1, A2, A3, A4, Hkeep, Hmsg1, Hlen, Hmsg2.
    split; [reflexivity|]. split; [split; assumption|].
    split; [discriminate|].
    intros _. rewrite Hfr, Htx, sendPoll_txFrames, Hbyte, Hs, Hseq.
    rewrite <- app_assoc. repeat split; reflexivity.
Qed.

End RoundFrames.

(** C10.  In a round that leaves the collection loop, the final frame
    given to the transmitter carries the poll frame's sequence number plus
    one (mod 256): the counter is advanced before the frame is written to
    the transmitter and before the delayed start is requested, whatever
    the result of that request.  A round whose delayed start is rejected
    returns with the counter advanced all the same, and the poll of the
    next round carries the advanced value. *)
Theorem final_seq_is_poll_seq_plus_one (regs : DecaRegs) (N : Z)
    (inp inp2 : RoundInput) (st : Globals) :
  txArraysSized st ->
  let o := dsInitRun N inp st in
  pastResponseLoop o = true ->
  exists poll final,
    txFrames (radio (stateOf o)) = txFrames (radio st) ++ [poll; final]
    /\ peek poll EX_SEQ_COUNT_IDX = exchangeSeqCount st
    /\ peek final EX_SEQ_COUNT_IDX = (exchangeSeqCount st + 1) mod 256
    /\ exchangeSeqCount (stateOf o) = (exchangeSeqCount st + 1) mod 256
    /\ (exists pre tail,
          radio (stateOf o)
          = pre ++ [WriteTxData sizeof_tagFinalMsg final;
                    WriteTxFctrl sizeof_tagFinalMsg 0 1;
                    StartTx true false] ++ tail
          /\ (tail = [] \/ tail = [Write32bitReg_SYS_STATUS SYS_STATUS_TXFRS]))
    /\ ((in_txStatus inp =? DWT_SUCCESS) = false -> exists st', o = Returned 1 st')
    /\ (exists poll2 more,
          txFrames (radio (stateOf (dsInitRun N inp2 (stateOf o))))
          = txFrames (radio (stateOf o)) ++ poll2 :: more
          /\ peek poll2 EX_SEQ_COUNT_IDX = (exchangeSeqCount st + 1) mod 256).
Proof.
  intros Hsz o Hpast.
  destruct (dsInitRun_txFrames N inp st Hsz) as (Hpoll & _ & Hsz' & _ & Hfin).
  fold o in Hsz', Hfin. destruct (Hfin Hpast) as (Htx & Hbyte & Hseq).
  exists (tagFirstMsg (sendPoll st)), (tagFinalMsg (stateOf o)).
  change (u8 (exchangeSeqCount st + 1))
    with ((exchangeSeqCount st + 1) mod 256) in *.
  split; [exact Htx|]. split; [exact Hpoll|]. split; [exact Hbyte|].
  split; [exact Hseq|]. split; [|split].
  - subst o. unfold dsInitRun in *.
    destruct (responseLoop N (in_reads inp) (sendPoll st)) as [st1|st1];
      [discriminate|].
    destruct (afterStartTx_state (in_txStatus inp) (in_txReads inp)
                (sendFinal N (in_txstamp inp) st1))
      as (_ & _ & _ & -> & _ & _ & _ & Hlog & _).
    exists (radio st1 ++
            [ReadTxTimestamp;
             SetDelayedTrxTime
               (scheduledFinalTxTime (peek (anchorsTimestamps st1) (N - 1))
                  RESP_RX_TO_FINAL_TX_DLY_UUS)]).
    destruct Hlog as [-> | ->]; rewrite sendFinal_tagSendDelayTime.
    + exists []. rewrite <- !app_assoc. split; [reflexivity|left; reflexivity].
    + eexists. rewrite <- !app_assoc. split; [reflexivity|right; reflexivity].
  - intros Hrej. subst o. unfold dsInitRun in *.
    destruct (responseLoop N (in_reads inp) (sendPoll st)) as [st1|st1];
      [discriminate|].
    unfold afterStartTx. rewrite Hrej. eexists. reflexivity.
  - destruct (dsInitRun_txFrames N inp2 (stateOf o) Hsz')
      as (Hpoll2 & _ & _ & Hwait & Hgo).
    exists (tagFirstMsg (sendPoll (stateOf o))).
    rewrite Hpoll2, Hseq.
    destruct (pastResponseLoop (dsInitRun N inp2 (stateOf o))).
    + destruct (Hgo eq_refl) as (-> & _). eexists. split; reflexivity.
    + destruct (Hwait eq_refl) as (-> & _). eexists. split; reflexivity.
Qed.

Lemma final_seq_is_poll_seq_plus_one_witness :
  exists poll final,
    txFrames (radio (stateOf (dsInitRun (regs := dw1000) 3 orderedRound
                                (initGlobals 3))))
    = [poll; final]
    /\ peek poll EX_SEQ_COUNT_IDX = 0
    /\ peek final EX_SEQ_COUNT_IDX = 1.
Proof.
  destruct (final_seq_is_poll_seq_plus_one dw1000 3 orderedRound orderedRound
              (initGlobals 3))
    as (poll & final & H1 & H2 & H3 & _).
  - split; reflexivity.
  - reflexivity.
  - exists poll, final. repeat split; assumption.
Defined.

(** * The transmit side across a round *)

Section FramesIntact.
Context {regs : DecaRegs}.
Variable N : Z.

Lemma framesIntact_initGlobals : framesIntact N (initGlobals N).
Proof.
  unfold framesIntact, initGlobals. gsimpl. split; [lia|].
  split; [exists 0; reflexivity|]. split.
  - exists 0, (replicate 22 0). split; reflexivity.
  - apply length_replicate.
Qed.

Lemma framesIntact_txArraysSized st : framesIntact N st -> txArraysSized st.
Proof.
  intros (_ & (s1 & H1) & (s2 & p & H2 & Hp) & _). unfold txArraysSized.
  rewrite H1, H2, !length_app, Hp. split; reflexivity.
Qed.

Lemma framesIntact_sendPoll st : framesIntact N st -> framesIntact N (sendPoll st).
Proof.
  intros (Hseq & (s1 & H1) & Hfin & Htab). unfold framesIntact, sendPoll. gsimpl.
  split; [exact Hseq|]. split; [|split; [exact Hfin|]].
  - exists (exchangeSeqCount st). rewrite H1.
    change (pollHeader s1 ++ [0; 0])
      with ([0x41; 0x88] ++ s1 :: [0xCA; 0xDE; chW; chA; chV; chE; 0xE0; 0; 0]).
    change EX_SEQ_COUNT_IDX with (Z.of_nat (length [0x41; 0x88])).
    rewrite poke_middle. reflexivity.
  - rewrite length_replicate. exact Htab.
Qed.

Lemma framesIntact_sameTxSide st st' :
  sameTxSide st st' -> framesIntact N st -> framesIntact N st'.
Proof.
  unfold sameTxSide, framesIntact.
  intros (-> & -> & -> & _ & -> & _). tauto.
Qed.

Lemma framesIntact_sendFinal txstamp st :
  0 <= N <= 3 -> framesIntact N st -> framesIntact N (sendFinal N txstamp st).
Proof.
  intros HN Hst.
  destruct (sendFinal_tagFinalMsg N txstamp st HN Hst) as (rest & Hmsg & Hrest).
  destruct Hst as (Hseq & Hfirst & _ & Htab).
  unfold framesIntact. split; [apply u8_range|]. split; [exact Hfirst|].
  split; [|exact Htab].
  eexists _, _. split; [exact Hmsg|].
  rewrite !length_app, !length_leBytes, length_concat_leBytes4.
  change (anchorsTimestamps (sendFinal N txstamp st)) with (anchorsTimestamps st).
  lia.
Qed.

Lemma framesIntact_dsInitRun inp st :
  0 <= N <= 3 -> framesIntact N st ->
  framesIntact N (stateOf (dsInitRun N inp st)).
Proof.
  intros HN Hst. unfold dsInitRun.
  pose proof (responseLoop_frame N (in_reads inp) (sendPoll st)) as Hfr.
  pose proof (framesIntact_sendPoll st Hst) as Hpoll.
  destruct (responseLoop N (in_reads inp) (sendPoll st)) as [st1|st1];
    cbn [loopState stateOf] in *.
  - exact (framesIntact_sameTxSide _ _ Hfr Hpoll).
  - pose proof (framesIntact_sendFinal (in_txstamp inp) st1 HN
                  (framesIntact_sameTxSide _ _ Hfr Hpoll)) as Hfin.
    destruct (afterStartTx_state (in_txStatus inp) (in_txReads inp)
                (sendFinal N (in_txstamp inp) st1))
      as (_ & A1 & A2 & A3 & A4 & _).
    unfold framesIntact in *. rewrite A1, A2, A3, A4. exact Hfin.
Qed.

End FramesIntact.

(** C2 (as amended).  The final frame a round builds, for up to three
    anchors, is the 10-byte header (with the advanced sequence number),
    then the low 32 bits of the poll-TX timestamp at bytes 10-13, then the
    low 32 bits of the final-TX timestamp at bytes 14-17, then the [N]
    receive timestamps at 4-byte strides from byte 18 in slot order, each
    little-endian: a payload of [4 + 4 + 4 * N] bytes before the room left
    for the checksum.  It is the last frame given to the transmitter. *)
Theorem final_frame_layout (regs : DecaRegs) (N : Z) (inp : RoundInput)
    (st : Globals) :
  0 <= N <= 3 -> framesIntact N st ->
  let o := dsInitRun N inp st in
  pastResponseLoop o = true ->
  let st' := stateOf o in
  exists rest,
    tagFinalMsg st'
    = finalHeader (exchangeSeqCount st')
        ++ leBytes 4 (tagTxTimestamp1 st')
        ++ leBytes 4 (tagTxTimestamp2 st')
        ++ concat (map (leBytes 4) (anchorsTimestamps st'))
        ++ rest
    /\ Z.of_nat (length (anchorsTimestamps st')) = N
    /\ Z.of_nat (length rest) = sizeof_tagFinalMsg - 10 - (4 + 4 + 4 * N)
    /\ last (txFrames (radio st')) = Some (tagFinalMsg st').
Proof.
  intros HN Hst o Hpast st'.
  destruct (dsInitRun_txFrames N inp st (framesIntact_txArraysSized N st Hst))
    as (_ & _ & _ & _ & Hfin).
  fold o in Hfin. destruct (Hfin Hpast) as (Htx & _). fold st' in Htx.
  subst st' o. unfold dsInitRun in *.
  pose proof (responseLoop_frame N (in_reads inp) (sendPoll st)) as Hfr.
  destruct (responseLoop N (in_reads inp) (sendPoll st)) as [st1|st1];
    [discriminate|]. cbn [loopState] in Hfr.
  pose proof (framesIntact_sameTxSide N _ _ Hfr (framesIntact_sendPoll N st Hst))
    as Hst1.
  destruct (sendFinal_tagFinalMsg N (in_txstamp inp) st1 HN Hst1)
    as (rest & Hmsg & Hrest).
  destruct (afterStartTx_state (in_txStatus inp) (in_txReads inp)
              (sendFinal N (in_txstamp inp) st1))
    as (_ & A1 & _ & A3 & A4 & _ & _ & _ & A5 & A6).
  exists rest. rewrite Htx, A1, A3, A4, A5, A6.
  split; [exact Hmsg|]. split; [|split].
  - destruct Hst1 as (_ & _ & _ & Htab).
    change (anchorsTimestamps (sendFinal N (in_txstamp inp) st1))
      with (anchorsTimestamps st1). rewrite Htab. lia.
  - rewrite Hrest. unfold sizeof_tagFinalMsg. lia.
  - rewrite <- A3. rewrite last_app. reflexivity.
Qed.

Lemma final_frame_layout_witness :
  let st' := stateOf (dsInitRun (regs := dw1000) 3 orderedRound (initGlobals 3)) in
  exists rest,
    tagFinalMsg st'
    = finalHeader (exchangeSeqCount st')
        ++ leBytes 4 (tagTxTimestamp1 st')
        ++ leBytes 4 (tagTxTimestamp2 st')
        ++ concat (map (leBytes 4) (anchorsTimestamps st'))
        ++ rest
    /\ Z.of_nat (length rest) = 2.
Proof.
  destruct (final_frame_layout dw1000 3 orderedRound (initGlobals 3))
    as (rest & H1 & _ & H3 & _).
  - lia.
  - apply framesIntact_initGlobals.
  - reflexivity.
  - exists rest. split; [exact H1 | exact H3].
Defined.

(** C2, counterexample.  After three responses in anchor order the frame
    built is not header, poll-TX, receive timestamps, final-TX: bytes
    14-17 hold the final-TX timestamp, not the first anchor's receive
    timestamp, and bytes 26-29 hold the third anchor's receive timestamp,
    not the final-TX timestamp. *)
Lemma final_frame_not_rx_before_final_tx :
  let o := dsInitRun (regs := dw1000) 3 orderedRound (initGlobals 3) in
  let st' := stateOf o in
  pastResponseLoop o = true
  /\ take 30 (tagFinalMsg st')
     <> finalLayout_rxBeforeFinalTx (exchangeSeqCount st') (tagTxTimestamp1 st')
          (anchorsTimestamps st') (tagTxTimestamp2 st')
  /\ take 4 (drop 14 (tagFinalMsg st')) = leBytes 4 (tagTxTimestamp2 st')
  /\ take 4 (drop 14 (tagFinalMsg st')) <> leBytes 4 (peek (anchorsTimestamps st') 0)
  /\ take 4 (drop 26 (tagFinalMsg st')) = leBytes 4 (peek (anchorsTimestamps st') 2)
  /\ take 4 (drop 26 (tagFinalMsg st')) <> leBytes 4 (tagTxTimestamp2 st').
Proof.
  vm_compute. repeat split; try discriminate.
Qed.

(** * Recording a response *)

Section Recording.
Variable N : Z.

(** Anchor numbers above [N] are turned down: nothing changes. *)
Lemma recordResponse_above anchorID st :
  N < anchorID -> recordResponse N anchorID st = st.
Proof.
  intros H. unfold recordResponse.
  destruct (Z.ltb_spec N anchorID); [reflexivity | lia].
Qed.

(** Anchor numbers from 1 to [N] fill their slot and are counted. *)
Lemma recordResponse_in_range anchorID st :
  Z.of_nat (length (anchorsTimestamps st)) = N ->
  1 <= anchorID <= N ->
  recordResponse N anchorID st
  = set_anchorsCount (anchorsCount st + 1)
      (set_anchorsTimestamps
         (<[Z.to_nat (anchorID - 1) := tagRxTimestamp1 st]> (anchorsTimestamps st))
         st).
Proof.
  intros Hlen H. unfold recordResponse, storeAnchorTimestamp.
  destruct (Z.ltb_spec N anchorID); [lia|].
  replace (inBounds (anchorsTimestamps st) (anchorID - 1)) with true
    by (symmetry; apply inBounds_true; lia).
  reflexivity.
Qed.

(** Anchor number 0 passes the check of line 170: the store goes to
    index -1, outside the table, and the response is counted. *)
Lemma recordResponse_zero st :
  0 <= N ->
  recordResponse N 0 st
  = set_anchorsCount (anchorsCount st + 1)
      (set_strayStores (strayStores st ++ [(-1, tagRxTimestamp1 st)]) st).
Proof.
  intros H. unfold recordResponse, storeAnchorTimestamp.
  destruct (Z.ltb_spec N 0); [lia|]. reflexivity.
Qed.

End Recording.

(** C1, the code at the failing input.  Three responses with anchor
    number 0 are all accepted: each is counted, each store lands at index
    -1 outside the table, the table stays empty and the round goes on to
    send the final frame. *)
Lemma anchor_id_zero_is_recorded :
  let o := dsInitRun (regs := dw1000) 3 zeroIdRound (initGlobals 3) in
  pastResponseLoop o = true
  /\ anchorsCount (stateOf o) = 3
  /\ anchorsTimestamps (stateOf o) = [0; 0; 0]
  /\ strayStores (stateOf o) = [(-1, 0x0B); (-1, 0x0C); (-1, 0x0D)].
Proof. vm_compute. repeat split. Qed.

(** * Timeouts and errors *)

(** A status read without RXFCG runs no statement of the loop body. *)
Lemma loopBody_noGoodFrame (regs : DecaRegs) (N : Z) (ev : RxEvent) (st : Globals) :
  noGoodFrame ev ->
  loopBody N ev (set_statusReg (u32 (ev_status ev)) st)
  = set_statusReg (u32 (ev_status ev)) st.
Proof.
  unfold noGoodFrame, loopBody. gsimpl. intros ->. reflexivity.
Qed.

(** C3, the code at the failing input.  After a receive timeout and a
    receive error the round is still collecting, and no command at all
    has gone to the radio: the flags are not cleared and the receiver is
    not reset.  The clearing and the reset are issued instead for a good
    frame that is not a response. *)
Lemma timeout_clears_nothing :
  let st0 := sendPoll (regs := dw1000) (initGlobals 3) in
  let waited := responseLoop (regs := dw1000) 3 [timeoutEvent; errorEvent] st0 in
  let other := responseLoop (regs := dw1000) 3 [strangerEvent] st0 in
  isSpinning waited = true
  /\ radio (loopState waited) = radio st0
  /\ statusReg (loopState waited) = ev_status errorEvent
  /\ isSpinning other = true
  /\ radio (loopState other)
     = radio st0 ++
       [Write32bitReg_SYS_STATUS 0x4080; ReadRxData 12;
        Write32bitReg_SYS_STATUS 0x24279000; RxReset].
Proof. vm_compute. repeat split. Qed.

(** C4, the code at the failing input.  Anchors 3, 1 and 2 answer in
    that order; the response received last, and accepted, is anchor 2's at
    3_000_000, yet the delayed transmission is programmed from slot 3 of
    the table, the response received first, at 1_000_000. *)
Lemma schedule_uses_last_slot_not_last_response :
  let o := dsInitRun (regs := dw1000) 3 shuffledRound (initGlobals 3) in
  pastResponseLoop o = true
  /\ tagRxTimestamp1 (stateOf o) = 3000000
  /\ anchorsTimestamps (stateOf o) = [2000000; 3000000; 1000000]
  /\ In (SetDelayedTrxTime (scheduledFinalTxTime 1000000 3800)) (radio (stateOf o))
  /\ ~ In (SetDelayedTrxTime (scheduledFinalTxTime 3000000 3800)) (radio (stateOf o))
  /\ scheduledFinalTxTime 1000000 3800 = 976706
  /\ scheduledFinalTxTime 3000000 3800 = 984518.
Proof.
  vm_compute. repeat split; auto 30.
  intros H. repeat (destruct H as [H|H]; [discriminate H|]). exact H.
Qed.

(** * Frame reception *)

Lemma peek_poke (a : list Z) j v i :
  peek (poke a j v) i = if (i =? j) && inBounds a j then v else peek a i.
Proof.
  destruct (Z.eqb_spec i j) as [->|Hne]; cbn [andb].
  - destruct (inBounds a j) eqn:E.
    + apply peek_poke_same, inBounds_true, E.
    + unfold poke. rewrite E. reflexivity.
  - unfold poke. destruct (inBounds a j) eqn:E; [|reflexivity].
    unfold peek, inBounds. rewrite length_insert.
    destruct ((0 <=? i) && (i <? Z.of_nat (length a))) eqn:Ei; [|reflexivity].
    apply andb_true_iff in Ei as [Hi _]. apply Z.leb_le in Hi.
    apply inBounds_true in E.
    rewrite list_lookup_insert_ne by lia. reflexivity.
Qed.

(** [dwt_readrxdata] overwrites the first [n] bytes and nothing else. *)
Lemma readrxdata_peek (buf chip : list Z) (n : nat) i :
  peek (readrxdata buf (Z.of_nat n) chip) i
  = if (i <? Z.of_nat n) && inBounds buf i then driverByte chip i else peek buf i.
Proof.
  unfold readrxdata. induction n as [|n IH].
  - cbn [seqZ fold_left]. destruct (Z.ltb_spec i (Z.of_nat 0)); [|reflexivity].
    unfold peek, inBounds. destruct (Z.leb_spec 0 i); [lia|reflexivity].
  - rewrite seqZ_S, fold_left_app. cbn [fold_left]. rewrite Z.add_0_l.
    rewrite peek_poke, IH.
    fold (readrxdata buf (Z.of_nat n) chip).
    unfold inBounds at 1. rewrite length_readrxdata. fold (inBounds buf (Z.of_nat n)).
    destruct (Z.eqb_spec i (Z.of_nat n)) as [->|Hne]; cbn [andb].
    + destruct (inBounds buf (Z.of_nat n)).
      * replace (Z.of_nat n <? Z.of_nat (S n)) with true
          by (symmetry; apply Z.ltb_lt; lia). reflexivity.
      * rewrite !andb_false_r. reflexivity.
    + replace (i <? Z.of_nat (S n)) with (i <? Z.of_nat n); [reflexivity|].
      destruct (Z.ltb_spec i (Z.of_nat n)); destruct (Z.ltb_spec i (Z.of_nat (S n)));
        try reflexivity; lia.
Qed.


(** * Timestamp fields of the final frame *)

Lemma leValue_leBytes n : forall v,
  leValue (leBytes n v) = v mod 256 ^ Z.of_nat n.
Proof.
  induction n as [|n IH]; intros v.
  - cbn. symmetry. apply Z.mod_1_r.
  - cbn [leBytes leValue]. rewrite IH.
    rewrite Nat2Z.inj_succ, Z.pow_succ_r by lia.
    symmetry. apply Z.rem_mul_r; [lia|]. apply Z.pow_pos_nonneg; lia.
Qed.

Lemma finalMsgSetTs_split (msg : list Z) tsField ts :
  0 <= tsField -> tsField + 4 <= Z.of_nat (length msg) ->
  finalMsgSetTs msg tsField ts
  = take (Z.to_nat tsField) msg ++ leBytes 4 ts
      ++ drop (Z.to_nat tsField + 4) msg.
Proof.
  intros H0 H1. unfold finalMsgSetTs.
  change (Z.to_nat FINAL_MSG_TS_LEN) with 4%nat.
  set (pre := take (Z.to_nat tsField) msg).
  set (old := take 4 (drop (Z.to_nat tsField) msg)).
  set (post := drop (Z.to_nat tsField + 4) msg).
  assert (msg = pre ++ old ++ post) as Hmsg.
  { subst pre old post. rewrite <- drop_drop, !take_drop. reflexivity. }
  assert (tsField = Z.of_nat (length pre)) as Hpre
    by (subst pre; rewrite length_take_le; lia).
  rewrite Hmsg at 1. rewrite Hpre.
  apply writeTsBytes_spec. subst old. rewrite length_take_le; [reflexivity|].
  rewrite length_drop. lia.
Qed.

(** X1.  [finalMsgSetTs] on a field that lies inside the frame: the frame
    keeps its length, every byte outside the four of the field is as
    before, and the field read back little-endian is the timestamp modulo
    [2^32] (its top byte is dropped). *)
Theorem finalMsgSetTs_roundtrip (msg : list Z) (tsField ts : Z) :
  0 <= tsField -> tsField + 4 <= Z.of_nat (length msg) ->
  let msg' := finalMsgSetTs msg tsField ts in
  length msg' = length msg
  /\ leValue (field32 msg' tsField) = ts mod 2 ^ 32
  /\ (forall i, i < tsField \/ tsField + 4 <= i -> peek msg' i = peek msg i).
Proof.
  intros H0 H1 msg'. split; [apply length_writeTsBytes|]. split.
  - subst msg'. unfold field32. rewrite finalMsgSetTs_split by assumption.
    rewrite drop_app_length' by (rewrite length_take_le; lia).
    rewrite take_app_length' by (symmetry; apply length_leBytes).
    rewrite leValue_leBytes. reflexivity.
  - intros i Hi. subst msg'. unfold finalMsgSetTs.
    change (Z.to_nat FINAL_MSG_TS_LEN) with 4%nat.
    cbn [writeTsBytes]. rewrite !peek_poke.
    repeat match goal with
           | |- context [?a =? ?b] =>
               destruct (Z.eqb_spec a b); [lia|]
           end.
    reflexivity.
Qed.

Lemma finalMsgSetTs_roundtrip_witness :
  leValue (field32 (finalMsgSetTs tagFinalMsg_init FINAL_MSG_TX_2_IDX 0xFFF127FF00)
             FINAL_MSG_TX_2_IDX)
  = 0xF127FF00.
Proof.
  destruct (finalMsgSetTs_roundtrip tagFinalMsg_init FINAL_MSG_TX_2_IDX 0xFFF127FF00)
    as (_ & H & _).
  - unfold FINAL_MSG_TX_2_IDX. lia.
  - unfold FINAL_MSG_TX_2_IDX. cbn. lia.
  - rewrite H. reflexivity.
Defined.

(** * Assembling raw timestamps *)

Lemma le_digit b r : 0 <= b < 256 ->
  (b + 256 * r) mod 256 = b /\ (b + 256 * r) / 256 = r.
Proof. intros Hb. split; Z.div_mod_to_equations; lia. Qed.

(** X2.  Whatever the driver leaves in the five-byte array, the assembled
    timestamp fits in 40 bits and its little-endian decomposition gives the
    five bytes back: two arrays assemble to the same value only if their
    five bytes agree.  The same holds for the transmit timestamp reader. *)
Theorem assemble_decomposes_to_its_bytes (tsTab : list Z) :
  0 <= getRxTimestampU64 tsTab < 2 ^ 40
  /\ leBytes 5 (getRxTimestampU64 tsTab) = map (driverByte tsTab) [0; 1; 2; 3; 4]
  /\ leBytes 5 (getTxTimestampU64 tsTab) = map (driverByte tsTab) [0; 1; 2; 3; 4]
  /\ (forall other,
        getRxTimestampU64 other = getRxTimestampU64 tsTab ->
        map (driverByte other) [0; 1; 2; 3; 4]
        = map (driverByte tsTab) [0; 1; 2; 3; 4]).
Proof.
  assert (forall t, leBytes 5 (getRxTimestampU64 t)
                    = map (driverByte t) [0; 1; 2; 3; 4]) as Hdec.
  { intros t. rewrite getRxTimestampU64_value.
    pose proof (driverByte_range t 0) as H0. pose proof (driverByte_range t 1) as H1.
    pose proof (driverByte_range t 2) as H2. pose proof (driverByte_range t 3) as H3.
    pose proof (driverByte_range t 4) as H4.
    cbn [leBytes map].
    destruct (le_digit (driverByte t 0)
                (driverByte t 1 + 256 * (driverByte t 2 + 256 * (driverByte t 3
                   + 256 * driverByte t 4))) H0) as [-> ->].
    destruct (le_digit (driverByte t 1)
                (driverByte t 2 + 256 * (driverByte t 3 + 256 * driverByte t 4)) H1)
      as [-> ->].
    destruct (le_digit (driverByte t 2)
                (driverByte t 3 + 256 * driverByte t 4) H2) as [-> ->].
    destruct (le_digit (driverByte t 3) (driverByte t 4) H3) as [-> ->].
    rewrite (Z.mod_small (driverByte t 4)) by lia. reflexivity. }
  split; [apply getRxTimestampU64_range|]. split; [apply Hdec|].
  split; [apply Hdec|].
  intros other Heq. rewrite <- !Hdec, Heq. reflexivity.
Qed.

(** A later write to a field further on leaves an earlier field as it is. *)
Lemma field32_finalMsgSetTs_before (msg : list Z) t1 t2 ts :
  0 <= t1 -> t1 + 4 <= t2 -> t2 + 4 <= Z.of_nat (length msg) ->
  field32 (finalMsgSetTs msg t2 ts) t1 = field32 msg t1.
Proof.
  intros H0 H1 H2. unfold field32. rewrite finalMsgSetTs_split by lia.
  rewrite drop_app_le by (rewrite length_take_le; lia).
  rewrite take_app_le by (rewrite length_drop, length_take_le; lia).
  rewrite !take_drop_commute, take_take. do 2 f_equal. lia.
Qed.

(** X3.  The two transmit timestamps as [dsInitRun] writes them, poll-TX
    at byte 10 and then final-TX at byte 14, are cut to 32 bits, yet their
    difference survives: when the final-TX timestamp is less than [2^32]
    device time units after the poll-TX timestamp, subtracting the two
    fields modulo [2^32] gives the true difference. *)
Theorem truncated_fields_keep_the_difference (msg : list Z) (pollTx finalTx : Z) :
  FINAL_MSG_TX_2_IDX + 4 <= Z.of_nat (length msg) ->
  0 <= finalTx - pollTx < 2 ^ 32 ->
  let msg' := finalMsgSetTs (finalMsgSetTs msg FINAL_MSG_TX_1_IDX pollTx)
                FINAL_MSG_TX_2_IDX finalTx in
  (leValue (field32 msg' FINAL_MSG_TX_2_IDX)
   - leValue (field32 msg' FINAL_MSG_TX_1_IDX)) mod 2 ^ 32
  = finalTx - pollTx.
Proof.
  intros Hlen Hd msg'. subst msg'. unfold FINAL_MSG_TX_1_IDX, FINAL_MSG_TX_2_IDX in *.
  set (m1 := finalMsgSetTs msg 10 pollTx).
  assert (length m1 = length msg) as Hm1 by apply length_writeTsBytes.
  destruct (finalMsgSetTs_roundtrip m1 14 finalTx) as (_ & -> & _); [lia | lia |].
  rewrite field32_finalMsgSetTs_before by lia. subst m1.
  destruct (finalMsgSetTs_roundtrip msg 10 pollTx) as (_ & -> & _); [lia | lia |].
  rewrite <- Zminus_mod. apply Z.mod_small. exact Hd.
Qed.

Lemma truncated_fields_keep_the_difference_witness :
  let msg' := finalMsgSetTs (finalMsgSetTs tagFinalMsg_init FINAL_MSG_TX_1_IDX
                               0xFFFFFFFF00)
                FINAL_MSG_TX_2_IDX 0x10000003E34 in
  (leValue (field32 msg' FINAL_MSG_TX_2_IDX)
   - leValue (field32 msg' FINAL_MSG_TX_1_IDX)) mod 2 ^ 32
  = 0x10000003E34 - 0xFFFFFFFF00.
Proof.
  apply (truncated_fields_keep_the_difference tagFinalMsg_init).
  - unfold FINAL_MSG_TX_2_IDX. cbn. lia.
  - lia.
Defined.

(** * The programmed and the predicted transmission time *)

(** X4.  As long as the receive timestamp in the last slot plus the
    turnaround delay stays below [2^40], the value programmed for the
    delayed transmission is that target divided by 256, and the final-TX
    timestamp [dsInitRun] predicts is the target rounded down to a
    multiple of 512 device time units, plus the antenna delay: at most 511
    units before the target. *)
Theorem predicted_final_tx_is_target_rounded_down (rxTs : Z) :
  0 <= rxTs ->
  rxTs + RESP_RX_TO_FINAL_TX_DLY_UUS * UUS_TO_DWT_TIME < 2 ^ 40 ->
  let target := rxTs + RESP_RX_TO_FINAL_TX_DLY_UUS * UUS_TO_DWT_TIME in
  let programmed := scheduledFinalTxTime rxTs RESP_RX_TO_FINAL_TX_DLY_UUS in
  let predicted := predictFinalTxTimestamp programmed TX_ANT_DLY in
  programmed = target / 256
  /\ predicted = 512 * (target / 512) + TX_ANT_DLY
  /\ target - 511 <= predicted - TX_ANT_DLY <= target.
Proof.
  intros H0 H1 target programmed predicted.
  assert (programmed = target / 256) as Hp.
  { subst programmed. rewrite scheduledFinalTxTime_arith.
    - fold target. change (rxTs + 249036800) with target.
      apply Z.mod_small. subst target.
      change (RESP_RX_TO_FINAL_TX_DLY_UUS * UUS_TO_DWT_TIME) with 249036800 in *.
      change (2 ^ 40) with 1099511627776 in H1.
      change (2 ^ 32) with 4294967296.
      Z.div_mod_to_equations. lia.
    - change (RESP_RX_TO_FINAL_TX_DLY_UUS * UUS_TO_DWT_TIME) with 249036800 in H1.
      lia. }
  assert (0 <= target < 2 ^ 40) as Ht.
  { subst target.
    change (RESP_RX_TO_FINAL_TX_DLY_UUS * UUS_TO_DWT_TIME) with 249036800 in *.
    lia. }
  assert (predicted = 512 * (target / 512) + TX_ANT_DLY) as Hq.
  { subst predicted. rewrite predictFinalTxTimestamp_arith.
    - rewrite Hp. change (2 ^ 40) with 1099511627776 in Ht.
      Z.div_mod_to_equations. lia.
    - rewrite Hp. change (2 ^ 40) with 1099511627776 in Ht.
      change (2 ^ 32) with 4294967296.
      Z.div_mod_to_equations. lia.
    - unfold TX_ANT_DLY. lia. }
  split; [exact Hp|]. split; [exact Hq|].
  rewrite Hq. Z.div_mod_to_equations. lia.
Qed.

Lemma predicted_final_tx_is_target_rounded_down_witness :
  predictFinalTxTimestamp (scheduledFinalTxTime 1000000 RESP_RX_TO_FINAL_TX_DLY_UUS)
    TX_ANT_DLY
  = 512 * ((1000000 + RESP_RX_TO_FINAL_TX_DLY_UUS * UUS_TO_DWT_TIME) / 512)
    + TX_ANT_DLY.
Proof.
  apply (predicted_final_tx_is_target_rounded_down 1000000).
  - lia.
  - reflexivity.
Defined.

(** * The sequence counter across rounds *)

Lemma dsInitRun_returned_seq (regs : DecaRegs) (N : Z) inp st r st' :
  dsInitRun N inp st = Returned r st' ->
  exchangeSeqCount st' = (exchangeSeqCount st + 1) mod 256.
Proof.
  unfold dsInitRun.
  pose proof (responseLoop_frame N (in_reads inp) (sendPoll st)) as Hfr.
  destruct (responseLoop N (in_reads inp) (sendPoll st)) as [st1|st1];
    [discriminate|].
  cbn [loopState] in Hfr. destruct Hfr as (Hseq & _).
  intros Hret.
  destruct (afterStartTx_state (in_txStatus inp) (in_txReads inp)
              (sendFinal N (in_txstamp inp) st1)) as (_ & A & _).
  rewrite Hret in A. cbn [stateOf] in A. rewrite A.
  change (exchangeSeqCount (sendFinal N (in_txstamp inp) st1))
    with (u8 (exchangeSeqCount st1 + 1)).
  rewrite Hseq. reflexivity.
Qed.

(** X5.  Every call of [dsInitRun] that returns, whether the final frame
    went out or the delayed start was turned down, advances the 8-bit
    sequence counter by one: after [k] returned rounds the counter is its
    old value plus [k] modulo 256, so 256 rounds bring it back to where it
    was. *)
Theorem seq_counter_counts_returned_rounds (regs : DecaRegs) (N : Z)
    (inputs : list RoundInput) (st : Globals) (r : Z) (st' : Globals) :
  0 <= exchangeSeqCount st < 256 ->
  taskLoop N inputs st = Returned r st' ->
  exchangeSeqCount st'
  = (exchangeSeqCount st + Z.of_nat (length inputs)) mod 256.
Proof.
  revert st. induction inputs as [|inp inputs IH]; intros st Hs; cbn [taskLoop].
  - intros [= _ <-]. cbn [length]. rewrite Z.add_0_r, Z.mod_small; [reflexivity|lia].
  - destruct (dsInitRun N inp st) as [s1|s1|r1 s1] eqn:E; try discriminate.
    intros Hrest. apply dsInitRun_returned_seq in E.
    rewrite (IH s1) by (rewrite ?E; try apply Z.mod_pos_bound; lia || exact Hrest).
    rewrite E, Zplus_mod_idemp_l. f_equal. cbn [length]. lia.
Qed.

Lemma seq_counter_counts_returned_rounds_witness :
  exchangeSeqCount
    (stateOf (taskLoop (regs := dw1000) 3 [orderedRound; lateRound] (initGlobals 3)))
  = 2.
Proof.
  destruct (taskLoop (regs := dw1000) 3 [orderedRound; lateRound] (initGlobals 3))
    as [s|s|r s] eqn:E.
  - vm_compute in E. discriminate E.
  - vm_compute in E. discriminate E.
  - cbn [stateOf].
    rewrite (seq_counter_counts_returned_rounds dw1000 3 [orderedRound; lateRound]
               (initGlobals 3) r s);
      [reflexivity | cbn; lia | exact E].
Defined.

(** * Receiving a response *)

Lemma peek_lookup (a : list Z) i x :
  0 <= i -> a !! Z.to_nat i = Some x -> peek a i = x.
Proof.
  intros Hi Hx. unfold peek.
  replace (inBounds a i) with true; [rewrite Hx; reflexivity|].
  symmetry. apply inBounds_true. apply lookup_lt_Some in Hx. lia.
Qed.

(** Two arrays that read the same at the first [n] indices have the same
    first [n] elements. *)
Lemma take_ext_peek (n : nat) (a b : list Z) :
  (n <= length a)%nat -> (n <= length b)%nat ->
  (forall i, 0 <= i < Z.of_nat n -> peek a i = peek b i) ->
  take n a = take n b.
Proof.
  intros Ha Hb Heq. apply list_eq. intros i.
  destruct (Nat.lt_ge_cases i n) as [Hlt|Hge].
  - rewrite !lookup_take_lt by exact Hlt.
    destruct (lookup_lt_is_Some_2 a i) as [x Hx]; [lia|].
    destruct (lookup_lt_is_Some_2 b i) as [y Hy]; [lia|].
    rewrite Hx, Hy. f_equal.
    rewrite <- (peek_lookup a (Z.of_nat i) x), <- (peek_lookup b (Z.of_nat i) y)
      by (rewrite ?Nat2Z.id; try assumption; lia).
    apply Heq. lia.
  - rewrite !lookup_take_ge by exact Hge. reflexivity.
Qed.

(** The receive buffer after lines 145-156, byte by byte. *)
Lemma receiveFrame_rxBuffer (regs : DecaRegs) (ev : RxEvent) (st : Globals) i :
  Z.of_nat (length (rxBuffer st)) = RX_BUF_LEN ->
  0 <= i < RX_BUF_LEN ->
  let frameLen := Z.land (u32 (ev_finfo ev)) RX_FINFO_RXFLEN_MASK in
  peek (rxBuffer (receiveFrame ev st)) i
  = if i =? EX_SEQ_COUNT_IDX then 0
    else if (frameLen <=? RX_BUF_LEN) && (i <? frameLen)
         then driverByte (ev_frame ev) i
         else peek (rxBuffer st) i.
Proof.
  intros Hlen Hi frameLen.
  assert (0 <= frameLen) as Hpos.
  { subst frameLen. apply Z.land_nonneg. left. apply u32_range. }
  unfold receiveFrame. gsimpl. fold frameLen.
  destruct (Z.leb_spec frameLen RX_BUF_LEN) as [Hle|Hgt];
    gsimpl; rewrite peek_poke; cbn [andb].
  - unfold inBounds at 1. rewrite length_readrxdata, Hlen.
    unfold EX_SEQ_COUNT_IDX, RX_BUF_LEN. cbn [Z.leb Z.ltb Z.compare andb].
    rewrite andb_true_r.
    destruct (i =? 2); [reflexivity|].
    rewrite <- (Z2Nat.id frameLen Hpos) at 1. rewrite readrxdata_peek.
    rewrite Z2Nat.id by exact Hpos.
    replace (inBounds (rxBuffer st) i) with true
      by (symmetry; apply inBounds_true; lia).
    rewrite andb_true_r. reflexivity.
  - unfold inBounds at 1. rewrite Hlen.
    unfold EX_SEQ_COUNT_IDX, RX_BUF_LEN. cbn [Z.leb Z.ltb Z.compare andb].
    rewrite andb_true_r. reflexivity.
Qed.

Lemma length_rxBuffer_receiveFrame (regs : DecaRegs) ev st :
  length (rxBuffer (receiveFrame ev st)) = length (rxBuffer st).
Proof. destruct (receiveFrame_frame ev st) as (_ & _ & _ & _ & _ & H). apply H. Qed.

(** A frame that carries a response passes the header comparison,
    whatever the receive buffer held before. *)
Lemma carriesResponse_matches (regs : DecaRegs) id ev st :
  Z.of_nat (length (rxBuffer st)) = RX_BUF_LEN ->
  carriesResponse id ev ->
  memcmp_eq (rxBuffer (receiveFrame ev st)) anchorMsg ALL_MSG_COMMON_LEN = true
  /\ peek (rxBuffer (receiveFrame ev st)) ANCHOR_ID_IDX = id.
Proof.
  intros Hlen (_ & Hfl & Hhdr & Hid).
  unfold ANCHOR_ID_IDX, RX_BUF_LEN, ALL_MSG_COMMON_LEN, EX_SEQ_COUNT_IDX in *.
  split.
  - unfold memcmp_eq. apply bool_decide_eq_true.
    apply take_ext_peek.
    + rewrite length_rxBuffer_receiveFrame. lia.
    + cbn. lia.
    + intros i Hi. rewrite receiveFrame_rxBuffer by (assumption || (unfold RX_BUF_LEN; lia)).
      unfold EX_SEQ_COUNT_IDX, RX_BUF_LEN.
      destruct (Z.eqb_spec i 2) as [->|Hne]; [reflexivity|].
      replace (Z.land (u32 (ev_finfo ev)) RX_FINFO_RXFLEN_MASK <=? 32) with true
        by (symmetry; apply Z.leb_le; lia).
      replace (i <? Z.land (u32 (ev_finfo ev)) RX_FINFO_RXFLEN_MASK) with true
        by (symmetry; apply Z.ltb_lt; lia).
      apply Hhdr; [cbn in Hi; lia | exact Hne].
  - rewrite receiveFrame_rxBuffer by (assumption || (unfold RX_BUF_LEN; lia)).
    unfold EX_SEQ_COUNT_IDX, RX_BUF_LEN. cbn [Z.eqb Pos.eqb].
    replace (Z.land (u32 (ev_finfo ev)) RX_FINFO_RXFLEN_MASK <=? 32) with true
      by (symmetry; apply Z.leb_le; lia).
    replace (10 <? Z.land (u32 (ev_finfo ev)) RX_FINFO_RXFLEN_MASK) with true
      by (symmetry; apply Z.ltb_lt; lia).
    exact Hid.
Qed.

Section Responses.
Context {regs : DecaRegs}.
Variable N : Z.

Lemma receiveFrame_radio ev st :
  let frameLen := Z.land (u32 (ev_finfo ev)) RX_FINFO_RXFLEN_MASK in
  radio (receiveFrame ev st)
  = radio st
      ++ Write32bitReg_SYS_STATUS (Z.lor SYS_STATUS_RXFCG SYS_STATUS_TXFRS)
      :: (if frameLen <=? RX_BUF_LEN then [ReadRxData frameLen] else []).
Proof.
  intros frameLen. unfold receiveFrame. gsimpl. fold frameLen.
  destruct (frameLen <=? RX_BUF_LEN); gsimpl; rewrite <- ?app_assoc; reflexivity.
Qed.

(** The loop body on a status read that carries a response. *)
Lemma loopBody_carriesResponse id ev st :
  Z.of_nat (length (rxBuffer st)) = RX_BUF_LEN ->
  carriesResponse id ev ->
  loopBody N ev (set_statusReg (u32 (ev_status ev)) st)
  = rearmReceiver N
      (recordResponse N id
         (takeRxTimestamp ev
            (receiveFrame ev (set_statusReg (u32 (ev_status ev)) st)))).
Proof.
  intros Hlen Hev.
  destruct (carriesResponse_matches regs id ev
              (set_statusReg (u32 (ev_status ev)) st) Hlen Hev) as (Hm & Hid).
  destruct Hev as (Hgood & _).
  unfold loopBody. gsimpl.
  destruct (Z.eqb_spec (Z.land (u32 (ev_status ev)) SYS_STATUS_RXFCG) 0);
    [contradiction|]. cbn [negb].
  unfold onGoodFrame. rewrite Hm. unfold onResponse.
  change (rxBuffer (takeRxTimestamp ev ?s)) with (rxBuffer s).
  rewrite Hid. reflexivity.
Qed.

End Responses.

(** X6.  A good frame that carries a response with an anchor number from
    1 to [N] is accepted whatever the receive buffer held before: the
    reception and the response are counted, the receive timestamp goes to
    the anchor's slot and to no other place, and the receiver is enabled
    again exactly when responses are still missing. *)
Theorem response_in_range_is_recorded (regs : DecaRegs) (N id : Z)
    (ev : RxEvent) (st : Globals) :
  Z.of_nat (length (rxBuffer st)) = RX_BUF_LEN ->
  Z.of_nat (length (anchorsTimestamps st)) = N ->
  carriesResponse id ev ->
  1 <= id <= N ->
  let st' := loopBody N ev (set_statusReg (u32 (ev_status ev)) st) in
  let ts := getRxTimestampU64 (ev_rxstamp ev) in
  anchorsCount st' = anchorsCount st + 1
  /\ rxCount st' = rxCount st + 1
  /\ tagRxTimestamp1 st' = ts
  /\ anchorsTimestamps st' = <[Z.to_nat (id - 1) := ts]> (anchorsTimestamps st)
  /\ peek (anchorsTimestamps st') (id - 1) = ts
  /\ strayStores st' = strayStores st
  /\ radio st'
     = radio st
         ++ [Write32bitReg_SYS_STATUS (Z.lor SYS_STATUS_RXFCG SYS_STATUS_TXFRS);
             ReadRxData (Z.land (u32 (ev_finfo ev)) RX_FINFO_RXFLEN_MASK);
             ReadRxTimestamp]
         ++ (if anchorsCount st + 1 <? N then [RxEnable] else []).
Proof.
  intros Hlen Htab Hev Hid st' ts. subst st'.
  rewrite (loopBody_carriesResponse N id ev st Hlen Hev).
  set (st0 := set_statusReg (u32 (ev_status ev)) st).
  destruct (receiveFrame_frame ev st0) as (Hc & Ht & Hs & Hr & _).
  pose proof (receiveFrame_radio ev st0) as Hlog. cbn zeta in Hlog.
  destruct Hev as (_ & Hfl & _).
  replace (Z.land (u32 (ev_finfo ev)) RX_FINFO_RXFLEN_MASK <=? RX_BUF_LEN)
    with true in Hlog by (symmetry; apply Z.leb_le; lia).
  set (st1 := takeRxTimestamp ev (receiveFrame ev st0)).
  assert (Z.of_nat (length (anchorsTimestamps st1)) = N) as Htab1.
  { subst st1. unfold takeRxTimestamp. gsimpl. rewrite Ht. exact Htab. }
  rewrite (recordResponse_in_range N id st1 Htab1 Hid).
  unfold rearmReceiver. gsimpl.
  assert (anchorsCount st1 = anchorsCount st) as Hc1
    by (subst st1; unfold takeRxTimestamp; gsimpl; exact Hc).
  assert (tagRxTimestamp1 st1 = ts) as Hts1 by reflexivity.
  assert (anchorsTimestamps st1 = anchorsTimestamps st) as Ht1
    by (subst st1; unfold takeRxTimestamp; gsimpl; exact Ht).
  assert (radio st1
          = radio st ++
            [Write32bitReg_SYS_STATUS (Z.lor SYS_STATUS_RXFCG SYS_STATUS_TXFRS);
             ReadRxData (Z.land (u32 (ev_finfo ev)) RX_FINFO_RXFLEN_MASK);
             ReadRxTimestamp]) as Hlog1.
  { subst st1. unfold takeRxTimestamp. gsimpl. rewrite Hlog.
    rewrite <- app_assoc. reflexivity. }
  rewrite Hc1, Hts1, Ht1.
  assert (peek (<[Z.to_nat (id - 1):=ts]> (anchorsTimestamps st)) (id - 1) = ts)
    as Hpeek.
  { apply peek_lookup; [lia|]. apply list_lookup_insert_eq. lia. }
  assert (rxCount st1 = rxCount st + 1) as Hr1
    by (subst st1; unfold takeRxTimestamp; gsimpl; rewrite Hr; reflexivity).
  assert (strayStores st1 = strayStores st) as Hs1
    by (subst st1; unfold takeRxTimestamp; gsimpl; exact Hs).
  destruct (anchorsCount st + 1 <? N); gsimpl;
    rewrite Hlog1, <- ?app_assoc, ?app_nil_r; tauto.
Qed.

(** The well-formed response frames of the concrete runs carry a response. *)
Lemma carriesResponse_responseFrame seq id stamp :
  0 <= id < 256 ->
  carriesResponse (regs := dw1000) id
    (goodFrameEvent 20 (responseFrame seq id) stamp).
Proof.
  intros Hid. unfold carriesResponse. cbn zeta.
  split; [vm_compute; discriminate|].
  split; [vm_compute; split; [reflexivity | discriminate]|].
  split.
  - intros i Hi Hne. unfold ALL_MSG_COMMON_LEN, EX_SEQ_COUNT_IDX in *.
    assert (i = 0 \/ i = 1 \/ i = 3 \/ i = 4 \/ i = 5 \/ i = 6 \/ i = 7
            \/ i = 8 \/ i = 9) as Hcase by lia.
    repeat (destruct Hcase as [->|Hcase]; [reflexivity|]).
    subst i. reflexivity.
  - unfold driverByte, ANCHOR_ID_IDX. cbn -[u8]. apply u8_small, Hid.
Qed.

Lemma response_in_range_is_recorded_witness :
  let st := sendPoll (regs := dw1000) (initGlobals 3) in
  let ev := goodFrameEvent 20 (responseFrame 0 2) [0x21; 0x22; 0x23; 0x24; 0x00] in
  peek (anchorsTimestamps
          (loopBody (regs := dw1000) 3 ev (set_statusReg (u32 (ev_status ev)) st)))
    (2 - 1)
  = getRxTimestampU64 (ev_rxstamp ev).
Proof.
  intros st ev.
  apply (response_in_range_is_recorded dw1000 3 2 ev st).
  - reflexivity.
  - reflexivity.
  - apply carriesResponse_responseFrame. lia.
  - lia.
Defined.

(** X7.  A good frame that carries a response with an anchor number above
    [N] is turned down without ending the round: the reception is counted
    and its timestamp overwrites [tagRxTimestamp1], but the response count,
    the table and the stray stores are as before, and the receiver is
    enabled again while responses are missing. *)
Theorem response_above_N_is_turned_down (regs : DecaRegs) (N id : Z)
    (ev : RxEvent) (st : Globals) :
  Z.of_nat (length (rxBuffer st)) = RX_BUF_LEN ->
  carriesResponse id ev ->
  N < id ->
  let st' := loopBody N ev (set_statusReg (u32 (ev_status ev)) st) in
  anchorsCount st' = anchorsCount st
  /\ anchorsTimestamps st' = anchorsTimestamps st
  /\ strayStores st' = strayStores st
  /\ rxCount st' = rxCount st + 1
  /\ tagRxTimestamp1 st' = getRxTimestampU64 (ev_rxstamp ev)
  /\ radio st'
     = radio st
         ++ [Write32bitReg_SYS_STATUS (Z.lor SYS_STATUS_RXFCG SYS_STATUS_TXFRS);
             ReadRxData (Z.land (u32 (ev_finfo ev)) RX_FINFO_RXFLEN_MASK);
             ReadRxTimestamp]
         ++ (if anchorsCount st <? N then [RxEnable] else []).
Proof.
  intros Hlen Hev Hid st'. subst st'.
  rewrite (loopBody_carriesResponse N id ev st Hlen Hev).
  set (st0 := set_statusReg (u32 (ev_status ev)) st).
  destruct (receiveFrame_frame ev st0) as (Hc & Ht & Hs & Hr & _).
  pose proof (receiveFrame_radio ev st0) as Hlog. cbn zeta in Hlog.
  destruct Hev as (_ & Hfl & _).
  replace (Z.land (u32 (ev_finfo ev)) RX_FINFO_RXFLEN_MASK <=? RX_BUF_LEN)
    with true in Hlog by (symmetry; apply Z.leb_le; lia).
  rewrite recordResponse_above by exact Hid.
  unfold rearmReceiver, takeRxTimestamp. gsimpl. rewrite Hc.
  change (anchorsCount st0) with (anchorsCount st).
  destruct (anchorsCount st <? N); gsimpl;
    rewrite ?Hc, ?Ht, ?Hs, ?Hr, ?Hlog, <- ?app_assoc, ?app_nil_r;
    repeat split; reflexivity.
Qed.

Lemma response_above_N_is_turned_down_witness :
  let st := sendPoll (regs := dw1000) (initGlobals 3) in
  let ev := goodFrameEvent 20 (responseFrame 0 4) [0x21; 0x22; 0x23; 0x24; 0x00] in
  anchorsCount (loopBody (regs := dw1000) 3 ev (set_statusReg (u32 (ev_status ev)) st))
  = anchorsCount st.
Proof.
  intros st ev.
  apply (response_above_N_is_turned_down dw1000 3 4 ev st).
  - reflexivity.
  - apply carriesResponse_responseFrame. lia.
  - lia.
Defined.

(** * The receiver after the last response *)

Section LastResponse.
Context {regs : DecaRegs}.
Variable N : Z.

(** An iteration that brings the count to [N] ends with the reading of the
    receive timestamp: the receiver is not enabled again. *)
Lemma loopBody_reaching_N ev st :
  anchorsCount st < N ->
  N <= anchorsCount (loopBody N ev st) ->
  exists pre, radio (loopBody N ev st) = pre ++ [ReadRxTimestamp].
Proof.
  intros Hlt. unfold loopBody. destruct (negb _); [|lia].
  unfold onGoodFrame.
  destruct (receiveFrame_frame ev st) as (Hc & _).
  destruct (memcmp_eq _ _ _); [|gsimpl; lia].
  unfold onResponse, rearmReceiver.
  destruct (Z.ltb_spec (anchorsCount
              (recordResponse N
                 (peek (rxBuffer (takeRxTimestamp ev (receiveFrame ev st)))
                    ANCHOR_ID_IDX)
                 (takeRxTimestamp ev (receiveFrame ev st)))) N) as [Hlow|Hhigh].
  - gsimpl. lia.
  - intros _. exists (radio (receiveFrame ev st)).
    unfold recordResponse, storeAnchorTimestamp, takeRxTimestamp.
    destruct (N <? _); [reflexivity|].
    destruct (inBounds _ _); reflexivity.
Qed.

Lemma responseLoop_exit_log reads : forall st st',
  anchorsCount st < N ->
  responseLoop N reads st = Exited st' ->
  exists pre, radio st' = pre ++ [ReadRxTimestamp].
Proof.
  induction reads as [|ev reads IH]; intros st st' Hlt; cbn [responseLoop].
  - destruct (Z.ltb_spec (anchorsCount st) N); [discriminate | lia].
  - destruct (Z.ltb_spec (anchorsCount st) N); [|lia].
    set (st1 := set_statusReg (u32 (ev_status ev)) st).
    destruct (rxEventPending _).
    + destruct (Z.lt_ge_cases (anchorsCount (loopBody N ev st1)) N) as [Hlow|Hhigh].
      * apply IH, Hlow.
      * destruct reads as [|ev' reads']; cbn [responseLoop];
          destruct (Z.ltb_spec (anchorsCount (loopBody N ev st1)) N); try lia;
          intros [= <-]; apply loopBody_reaching_N; assumption.
    + apply IH. exact Hlt.
Qed.

End LastResponse.

(** X8.  With at least one anchor configured, once the collection loop is
    left the last command the radio got in it is the reading of the final
    response's receive timestamp: the receiver is not enabled again after
    the [N]th response, and the reading of the poll's transmit timestamp
    follows at once. *)
Theorem receiver_not_rearmed_after_last_response (regs : DecaRegs) (N : Z)
    (inp : RoundInput) (st : Globals) :
  1 <= N ->
  pastResponseLoop (dsInitRun N inp st) = true ->
  exists pre tail,
    radio (stateOf (dsInitRun N inp st))
    = pre ++ ReadRxTimestamp :: ReadTxTimestamp :: tail
    /\ ~ In RxEnable tail.
Proof.
  intros HN. unfold dsInitRun.
  destruct (responseLoop N (in_reads inp) (sendPoll st)) as [st1|st1] eqn:E;
    [discriminate|].
  intros _.
  destruct (responseLoop_exit_log N (in_reads inp) (sendPoll st) st1) as (pre & Hpre);
    [rewrite sendPoll_anchorsCount; lia | exact E |].
  destruct (afterStartTx_state (in_txStatus inp) (in_txReads inp)
              (sendFinal N (in_txstamp inp) st1))
    as (_ & _ & _ & _ & _ & _ & _ & Hlog & _).
  exists pre.
  destruct Hlog as [-> | ->]; rewrite sendFinal_tagSendDelayTime, Hpre;
    rewrite <- !app_assoc; cbn [app]; eexists; (split; [reflexivity|]);
    intros Hin; cbn [In] in Hin;
    repeat (destruct Hin as [Hin|Hin]; [discriminate Hin|]); exact Hin.
Qed.

Lemma receiver_not_rearmed_after_last_response_witness :
  exists pre tail,
    radio (stateOf (dsInitRun (regs := dw1000) 3 shuffledRound (initGlobals 3)))
    = pre ++ ReadRxTimestamp :: ReadTxTimestamp :: tail
    /\ ~ In RxEnable tail.
Proof.
  apply (receiver_not_rearmed_after_last_response dw1000 3 shuffledRound
           (initGlobals 3)).
  - lia.
  - reflexivity.
Defined.

(** * Frames longer than the receive buffer *)

(** X9.  A good frame reported longer than the receive buffer is not
    copied, so the header comparison runs on what the buffer already held.
    When that is a response (as right after one was received), the long
    frame is taken for a response from the same anchor: the reception is
    counted, [tagRxTimestamp1] takes the new timestamp and, for an anchor
    number from 1 to [N], the response is counted once more and the
    anchor's slot is overwritten with the new timestamp.  No frame data is
    read from the chip. *)
Theorem oversized_frame_is_judged_on_stale_bytes (regs : DecaRegs) (N : Z)
    (ev : RxEvent) (st : Globals) :
  Z.land (statusReg st) SYS_STATUS_RXFCG <> 0 ->
  RX_BUF_LEN < Z.land (u32 (ev_finfo ev)) RX_FINFO_RXFLEN_MASK ->
  memcmp_eq (rxBuffer st) anchorMsg ALL_MSG_COMMON_LEN = true ->
  let st' := loopBody N ev st in
  let id := peek (rxBuffer st) ANCHOR_ID_IDX in
  rxBuffer st' = rxBuffer st
  /\ rxCount st' = rxCount st + 1
  /\ tagRxTimestamp1 st' = getRxTimestampU64 (ev_rxstamp ev)
  /\ (forall len, ~ In (ReadRxData len) (drop (length (radio st)) (radio st')))
  /\ (Z.of_nat (length (anchorsTimestamps st)) = N -> 1 <= id <= N ->
        anchorsCount st' = anchorsCount st + 1
        /\ anchorsTimestamps st'
           = <[Z.to_nat (id - 1) := getRxTimestampU64 (ev_rxstamp ev)]>
               (anchorsTimestamps st)).
Proof.
  intros Hgood Hlong Hmatch st' id.
  assert (poke (rxBuffer st) EX_SEQ_COUNT_IDX 0 = rxBuffer st) as Hsame.
  { unfold memcmp_eq in Hmatch. apply bool_decide_eq_true in Hmatch.
    assert (rxBuffer st !! 2%nat = Some 0) as H2.
    { rewrite <- (lookup_take_lt _ (Z.to_nat ALL_MSG_COMMON_LEN))
        by (unfold ALL_MSG_COMMON_LEN; lia).
      rewrite Hmatch. reflexivity. }
    unfold poke. destruct (inBounds _ _); [|reflexivity].
    apply list_insert_id. exact H2. }
  assert (receiveFrame ev st
          = emit [Write32bitReg_SYS_STATUS
                    (Z.lor SYS_STATUS_RXFCG SYS_STATUS_TXFRS)] st) as Hrecv.
  { unfold receiveFrame.
    destruct (Z.leb_spec (Z.land (u32 (ev_finfo ev)) RX_FINFO_RXFLEN_MASK)
                RX_BUF_LEN); [lia|].
    gsimpl. rewrite Hsame. destruct st. reflexivity. }
  assert (st' = rearmReceiver N
                  (recordResponse N id (takeRxTimestamp ev (receiveFrame ev st))))
    as Hst'.
  { subst st'. unfold loopBody.
    destruct (Z.eqb_spec (Z.land (statusReg st) SYS_STATUS_RXFCG) 0);
      [contradiction|]. cbn [negb].
    unfold onGoodFrame. rewrite Hrecv at 1. gsimpl. rewrite Hmatch.
    unfold onResponse. rewrite Hrecv. reflexivity. }
  rewrite Hrecv in Hst'.
  assert (forall s, rxBuffer (rearmReceiver N s) = rxBuffer s
                    /\ rxCount (rearmReceiver N s) = rxCount s
                    /\ tagRxTimestamp1 (rearmReceiver N s) = tagRxTimestamp1 s
                    /\ anchorsCount (rearmReceiver N s) = anchorsCount s
                    /\ anchorsTimestamps (rearmReceiver N s) = anchorsTimestamps s
                    /\ (radio (rearmReceiver N s) = radio s
                        \/ radio (rearmReceiver N s) = radio s ++ [RxEnable]))
    as Hrearm.
  { intros s. unfold rearmReceiver. destruct (_ <? N); gsimpl; tauto. }
  assert (forall a s, rxBuffer (recordResponse N a s) = rxBuffer s
                      /\ rxCount (recordResponse N a s) = rxCount s
                      /\ tagRxTimestamp1 (recordResponse N a s) = tagRxTimestamp1 s
                      /\ radio (recordResponse N a s) = radio s) as Hrec.
  { intros a s. unfold recordResponse, storeAnchorTimestamp.
    destruct (N <? a); [tauto|]. destruct (inBounds _ _); gsimpl; tauto. }
  set (s1 := takeRxTimestamp ev
               (emit [Write32bitReg_SYS_STATUS
                        (Z.lor SYS_STATUS_RXFCG SYS_STATUS_TXFRS)] st)) in *.
  destruct (Hrearm (recordResponse N id s1)) as (R1 & R2 & R3 & R4 & R5 & R6).
  destruct (Hrec id s1) as (Q1 & Q2 & Q3 & Q4).
  rewrite Hst'. rewrite R1, R2, R3, R4, R5, Q1, Q2, Q3.
  split; [reflexivity|]. split; [reflexivity|]. split; [reflexivity|].
  split.
  - intros len Hin.
    assert (radio s1 = radio st ++
              [Write32bitReg_SYS_STATUS (Z.lor SYS_STATUS_RXFCG SYS_STATUS_TXFRS);
               ReadRxTimestamp]) as Hlog
      by (subst s1; unfold takeRxTimestamp; gsimpl; rewrite <- app_assoc; reflexivity).
    destruct R6 as [R6|R6]; rewrite R6, Q4, Hlog in Hin;
      rewrite <- ?app_assoc in Hin; rewrite drop_app_length in Hin;
      cbn [app In] in Hin;
      repeat (destruct Hin as [Hin|Hin]; [discriminate Hin|]); exact Hin.
  - intros Htab Hid.
    rewrite (recordResponse_in_range N id s1) by (assumption || exact Htab).
    gsimpl. split; reflexivity.
Qed.

Lemma oversized_frame_is_judged_on_stale_bytes_witness :
  rxCount (loopBody (regs := dw1000) 3 longFrameEvent afterFirstResponse)
  = rxCount afterFirstResponse + 1
  /\ anchorsCount (loopBody (regs := dw1000) 3 longFrameEvent afterFirstResponse)
     = anchorsCount afterFirstResponse + 1.
Proof.
  destruct (oversized_frame_is_judged_on_stale_bytes dw1000 3 longFrameEvent
              afterFirstResponse) as (_ & H1 & _ & _ & H2).
  - vm_compute. discriminate.
  - vm_compute. reflexivity.
  - vm_compute. reflexivity.
  - split; [exact H1|]. apply H2; [reflexivity | vm_compute; split; discriminate].
Defined.

(** * What the table can hold *)

Section TableContents.
Context {regs : DecaRegs}.
Variable N : Z.
Variable Q : Z -> Prop.

Lemma loopBody_table ev st :
  Forall Q (anchorsTimestamps st) ->
  Q (getRxTimestampU64 (ev_rxstamp ev)) ->
  Forall Q (anchorsTimestamps (loopBody N ev st)).
Proof.
  intros Htab Hev. unfold loopBody. destruct (negb _); [|exact Htab].
  unfold onGoodFrame.
  destruct (receiveFrame_frame ev st) as (_ & Ht & _).
  destruct (memcmp_eq _ _ _); [|gsimpl; rewrite Ht; exact Htab].
  unfold onResponse, rearmReceiver, recordResponse, storeAnchorTimestamp,
    takeRxTimestamp. gsimpl.
  destruct (N <? _); gsimpl.
  - destruct (_ <? N); gsimpl; rewrite Ht; exact Htab.
  - destruct (_ <? N); destruct (inBounds _ _); gsimpl; rewrite Ht;
      try exact Htab; apply Forall_insert; assumption.
Qed.

Lemma responseLoop_table reads : forall st,
  Forall Q (anchorsTimestamps st) ->
  (forall ev, In ev reads -> Q (getRxTimestampU64 (ev_rxstamp ev))) ->
  Forall Q (anchorsTimestamps (loopState (responseLoop N reads st))).
Proof.
  induction reads as [|ev reads IH]; intros st Htab Hreads; cbn [responseLoop].
  - destruct (_ <? N); exact Htab.
  - destruct (_ <? N); [|exact Htab].
    destruct (rxEventPending _); apply IH;
      try (intros e He; apply Hreads; right; exact He).
    + apply loopBody_table; [exact Htab | apply Hreads; left; reflexivity].
    + exact Htab.
Qed.

End TableContents.

(** X10.  The table is cleared when a round starts and is written only
    with receive timestamps read in that round: after [dsInitRun], however
    far it got, every slot holds 0 or the receive timestamp that came with
    one of the round's status reads.  Nothing of an earlier round stays in
    the table or goes into the final frame. *)
Theorem table_holds_only_this_rounds_timestamps (regs : DecaRegs) (N : Z)
    (inp : RoundInput) (st : Globals) :
  Forall (fun t => t = 0
                   \/ exists ev, In ev (in_reads inp)
                                 /\ t = getRxTimestampU64 (ev_rxstamp ev))
    (anchorsTimestamps (stateOf (dsInitRun N inp st))).
Proof.
  set (Q := fun t => t = 0 \/ exists ev, In ev (in_reads inp)
                                         /\ t = getRxTimestampU64 (ev_rxstamp ev)).
  assert (Forall Q (anchorsTimestamps
                      (loopState (responseLoop N (in_reads inp) (sendPoll st)))))
    as Hloop.
  { apply responseLoop_table.
    - unfold sendPoll. gsimpl. apply Forall_replicate. left. reflexivity.
    - intros ev Hev. right. exists ev. split; [exact Hev | reflexivity]. }
  unfold dsInitRun.
  destruct (responseLoop N (in_reads inp) (sendPoll st)) as [st1|st1];
    cbn [loopState stateOf] in *; [exact Hloop|].
  destruct (afterStartTx_state (in_txStatus inp) (in_txReads inp)
              (sendFinal N (in_txstamp inp) st1)) as (_ & _ & _ & _ & -> & _).
  exact Hloop.
Qed.

(** * Array bounds *)

Lemma Forall_poke (P : Z -> Prop) (a : list Z) i v :
  Forall P a -> P v -> Forall P (poke a i v).
Proof.
  intros Ha Hv. unfold poke. destruct (inBounds a i); [|exact Ha].
  apply Forall_insert; assumption.
Qed.

Lemma Forall_readrxdata (buf chip : list Z) len :
  Forall (fun b => 0 <= b < 256) buf ->
  Forall (fun b => 0 <= b < 256) (readrxdata buf len chip).
Proof.
  unfold readrxdata. generalize (seqZ 0 len). intros l. revert buf.
  induction l as [|i l IH]; intros buf Hbuf; cbn [fold_left]; [exact Hbuf|].
  apply IH, Forall_poke; [exact Hbuf | apply driverByte_range].
Qed.

Lemma peek_Forall (P : Z -> Prop) (a : list Z) i :
  Forall P a -> P 0 -> P (peek a i).
Proof.
  intros Ha H0. unfold peek. destruct (inBounds a i); [|exact H0].
  destruct (a !! Z.to_nat i) as [x|] eqn:E; [|exact H0].
  cbn. rewrite Forall_forall in Ha. apply Ha.
  apply list_elem_of_lookup. eauto.
Qed.

Section ArrayBounds.
Context {regs : DecaRegs}.
Variable N : Z.

Lemma arraysKept_initGlobals : 0 <= N -> arraysKept N (initGlobals N).
Proof.
  intros HN. unfold arraysKept, initGlobals. gsimpl.
  rewrite !length_replicate. split; [unfold RX_BUF_LEN; lia|].
  split; [apply Forall_replicate; lia|]. split; [lia | constructor].
Qed.

Lemma arraysKept_same st st' :
  rxBuffer st' = rxBuffer st -> anchorsTimestamps st' = anchorsTimestamps st ->
  strayStores st' = strayStores st -> arraysKept N st -> arraysKept N st'.
Proof. unfold arraysKept. intros -> -> ->. tauto. Qed.

Lemma arraysKept_sendPoll st : arraysKept N st -> arraysKept N (sendPoll st).
Proof.
  intros (H1 & H2 & H3 & H4). unfold arraysKept, sendPoll. gsimpl.
  rewrite length_replicate. tauto.
Qed.

Lemma arraysKept_receiveFrame ev st :
  arraysKept N st -> arraysKept N (receiveFrame ev st).
Proof.
  intros (H1 & H2 & H3 & H4).
  destruct (receiveFrame_frame ev st) as (_ & Ht & Hs & _).
  unfold arraysKept. rewrite Ht, Hs, length_rxBuffer_receiveFrame.
  split; [exact H1|]. split; [|tauto].
  unfold receiveFrame. gsimpl.
  destruct (_ <=? RX_BUF_LEN); gsimpl; apply Forall_poke; try lia;
    try apply Forall_readrxdata; exact H2.
Qed.

(** The store of line 173 leaves the table only for anchor number 0, and
    then at index -1. *)
Lemma arraysKept_recordResponse anchorID st :
  0 <= anchorID -> arraysKept N st -> arraysKept N (recordResponse N anchorID st).
Proof.
  intros Hid (H1 & H2 & H3 & H4). unfold recordResponse, storeAnchorTimestamp.
  destruct (Z.ltb_spec N anchorID); [unfold arraysKept; tauto|].
  destruct (inBounds (anchorsTimestamps st) (anchorID - 1)) eqn:E;
    unfold arraysKept; gsimpl; rewrite ?length_insert.
  - tauto.
  - split; [exact H1|]. split; [exact H2|]. split; [exact H3|].
    apply Forall_app. split; [exact H4|]. constructor; [|constructor].
    cbn [fst]. destruct (Z.eq_dec anchorID 0) as [->|Hne]; [reflexivity|].
    assert (inBounds (anchorsTimestamps st) (anchorID - 1) = true) as Hin
      by (apply inBounds_true; lia).
    congruence.
Qed.

Lemma arraysKept_loopBody ev st : arraysKept N st -> arraysKept N (loopBody N ev st).
Proof.
  intros Hst. unfold loopBody. destruct (negb _); [|exact Hst].
  unfold onGoodFrame.
  pose proof (arraysKept_receiveFrame ev st Hst) as Hrecv.
  destruct (memcmp_eq _ _ _).
  - unfold onResponse.
    assert (arraysKept N (takeRxTimestamp ev (receiveFrame ev st))) as Htake
      by (revert Hrecv; apply arraysKept_same; reflexivity).
    assert (0 <= peek (rxBuffer (takeRxTimestamp ev (receiveFrame ev st)))
                   ANCHOR_ID_IDX < 256) as Hid.
    { apply (peek_Forall (fun b => 0 <= b < 256)); [apply Htake | lia]. }
    pose proof (arraysKept_recordResponse _ _ (proj1 Hid) Htake) as Hrec.
    revert Hrec. unfold rearmReceiver. destruct (_ <? N); [|tauto].
    apply arraysKept_same; reflexivity.
  - revert Hrecv. apply arraysKept_same; reflexivity.
Qed.

Lemma arraysKept_dsInitRun inp st :
  arraysKept N st -> arraysKept N (stateOf (dsInitRun N inp st)).
Proof.
  intros Hst. unfold dsInitRun.
  assert (arraysKept N (loopState (responseLoop N (in_reads inp) (sendPoll st))))
    as Hloop.
  { apply (responseLoop_invariant N (arraysKept N)).
    - intros s v. apply arraysKept_same; reflexivity.
    - intros ev s. apply arraysKept_loopBody.
    - apply arraysKept_sendPoll, Hst. }
  destruct (responseLoop N (in_reads inp) (sendPoll st)) as [st1|st1];
    cbn [loopState stateOf] in *; [exact Hloop|].
  destruct (afterStartTx_state (in_txStatus inp) (in_txReads inp)
              (sendFinal N (in_txstamp inp) st1))
    as (_ & _ & _ & _ & A1 & A2 & _).
  assert (strayStores (stateOf (afterStartTx (in_txStatus inp) (in_txReads inp)
                                  (sendFinal N (in_txstamp inp) st1)))
          = strayStores st1) as A3.
  { unfold afterStartTx.
    destruct (_ =? _); [destruct (txDoneSeen _)|]; reflexivity. }
  revert Hloop. apply arraysKept_same; [rewrite A2 | rewrite A1 | rewrite A3];
    reflexivity.
Qed.

Lemma arraysKept_taskLoop inputs : forall st,
  arraysKept N st -> arraysKept N (stateOf (taskLoop N inputs st)).
Proof.
  induction inputs as [|inp inputs IH]; intros st Hst; cbn [taskLoop].
  - exact Hst.
  - pose proof (arraysKept_dsInitRun inp st Hst) as Hrun.
    destruct (dsInitRun N inp st); cbn [stateOf] in *; auto.
Qed.

End ArrayBounds.

(** The copies of line 151: the length test of line 150 is the only thing
    between the length the radio reports and the receive buffer. *)
Section CopyBounds.
Context {regs : DecaRegs}.
Variable N : Z.

Lemma copiesFit_app log cmds :
  copiesFit log -> copiesFit cmds -> copiesFit (log ++ cmds).
Proof. intros H1 H2. apply Forall_app. split; assumption. Qed.

Lemma copiesFit_same st st' :
  radio st' = radio st -> copiesFit (radio st) -> copiesFit (radio st').
Proof. intros ->. tauto. Qed.

Lemma copiesFit_sendPoll st :
  copiesFit (radio st) -> copiesFit (radio (sendPoll st)).
Proof.
  intros H. unfold sendPoll. gsimpl. apply copiesFit_app; [exact H|].
  repeat constructor.
Qed.

(** A frame is copied only when its length is at most [RX_BUF_LEN]; the
    length is a masked 32-bit register value and so never negative. *)
Lemma copiesFit_receiveFrame ev st :
  copiesFit (radio st) -> copiesFit (radio (receiveFrame ev st)).
Proof.
  intros H. rewrite receiveFrame_radio. apply copiesFit_app; [exact H|].
  constructor; [exact I|].
  destruct (Z.leb_spec (Z.land (u32 (ev_finfo ev)) RX_FINFO_RXFLEN_MASK)
              RX_BUF_LEN) as [Hle|Hgt]; [|constructor].
  constructor; [|constructor]. cbn [copyFits]. split; [|exact Hle].
  apply Z.land_nonneg. left. apply u32_range.
Qed.

Lemma copiesFit_loopBody ev st :
  copiesFit (radio st) -> copiesFit (radio (loopBody N ev st)).
Proof.
  intros Hst. unfold loopBody. destruct (negb _); [|exact Hst].
  unfold onGoodFrame.
  pose proof (copiesFit_receiveFrame ev st Hst) as Hrecv.
  destruct (memcmp_eq _ _ _).
  - unfold onResponse, rearmReceiver, recordResponse, storeAnchorTimestamp,
      takeRxTimestamp. gsimpl.
    destruct (N <? _); gsimpl.
    + destruct (_ <? N); gsimpl; repeat apply copiesFit_app; try exact Hrecv;
        repeat constructor.
    + destruct (inBounds _ _); gsimpl; destruct (_ <? N); gsimpl;
        repeat apply copiesFit_app; try exact Hrecv; repeat constructor.
  - gsimpl. apply copiesFit_app; [exact Hrecv | repeat constructor].
Qed.

Lemma copiesFit_dsInitRun inp st :
  copiesFit (radio st) -> copiesFit (radio (stateOf (dsInitRun N inp st))).
Proof.
  intros Hst. unfold dsInitRun.
  assert (copiesFit (radio (loopState (responseLoop N (in_reads inp) (sendPoll st)))))
    as Hloop.
  { apply (responseLoop_invariant N (fun s => copiesFit (radio s))).
    - intros s v Hs. exact Hs.
    - intros ev s. apply copiesFit_loopBody.
    - apply copiesFit_sendPoll, Hst. }
  destruct (responseLoop N (in_reads inp) (sendPoll st)) as [st1|st1];
    cbn [loopState stateOf] in *; [exact Hloop|].
  assert (copiesFit (radio (sendFinal N (in_txstamp inp) st1))) as Hfinal.
  { unfold sendFinal. gsimpl. repeat apply copiesFit_app; try exact Hloop;
      repeat constructor. }
  destruct (afterStartTx_state (in_txStatus inp) (in_txReads inp)
              (sendFinal N (in_txstamp inp) st1))
    as (_ & _ & _ & _ & _ & _ & _ & [-> | ->] & _); [exact Hfinal|].
  apply copiesFit_app; [exact Hfinal | repeat constructor].
Qed.

Lemma copiesFit_taskLoop inputs : forall st,
  copiesFit (radio st) -> copiesFit (radio (stateOf (taskLoop N inputs st))).
Proof.
  induction inputs as [|inp inputs IH]; intros st Hst; cbn [taskLoop].
  - exact Hst.
  - pose proof (copiesFit_dsInitRun inp st Hst) as Hrun.
    destruct (dsInitRun N inp st); cbn [stateOf] in *; auto.
Qed.

End CopyBounds.

(** X11.  Two accesses of the program take their position from what the
    radio delivers: the copy of the received frame to the receive buffer
    (its length) and the store of the reception timestamp in the table
    (its index).  In every state the task can reach, whatever the radio
    has supplied: the first store that left the table, if there is one,
    went to index -1, the slot an anchor number 0 selects, so no anchor
    number takes the program past the end of the table; and when no store
    has left the table, every copy that was made had a length between 0
    and the 32 bytes of the receive buffer. *)
Theorem first_stray_store_is_at_index_minus_one (regs : DecaRegs) (N : Z)
    (inputs : list RoundInput) :
  0 <= N ->
  let st := stateOf (ds_initiator_task_function N inputs (initGlobals N)) in
  (forall idx ts, head (strayStores st) = Some (idx, ts) -> idx = -1)
  /\ (strayStores st = [] -> copiesFit (radio st)).
Proof.
  intros HN st. split.
  - assert (arraysKept N st) as (_ & _ & _ & H4).
    { subst st. unfold ds_initiator_task_function. apply arraysKept_taskLoop.
      generalize (arraysKept_initGlobals N HN).
      apply arraysKept_same; reflexivity. }
    intros idx ts Hhead. destruct (strayStores st) as [|s rest]; [discriminate|].
    injection Hhead as ->. inversion H4 as [|? ? Hs _]. exact Hs.
  - intros _. subst st. unfold ds_initiator_task_function.
    apply copiesFit_taskLoop. unfold initGlobals. gsimpl. repeat constructor.
Qed.

Lemma first_stray_store_is_at_index_minus_one_witness :
  copiesFit
    (radio (stateOf (ds_initiator_task_function (regs := dw1000) 3
                       [longFrameRound; orderedRound; lateRound] (initGlobals 3)))).
Proof.
  destruct (first_stray_store_is_at_index_minus_one dw1000 3
              [longFrameRound; orderedRound; lateRound]) as [_ Hfit].
  - lia.
  - apply Hfit. vm_compute. reflexivity.
Defined.

(** * Repeated responses *)

Lemma rxEventPending_good (regs : DecaRegs) status :
  Z.land status SYS_STATUS_RXFCG <> 0 -> rxEventPending status = true.
Proof.
  intros H. unfold rxEventPending. rewrite Z.land_lor_distr_r.
  destruct (Z.eqb_spec
              (Z.lor (Z.land status SYS_STATUS_RXFCG)
                 (Z.land status (Z.lor SYS_STATUS_ALL_RX_TO SYS_STATUS_ALL_RX_ERR)))
              0) as [E|E]; [|reflexivity].
  apply Z.lor_eq_0_iff in E. tauto.
Qed.

Section Repeats.
Context {regs : DecaRegs}.
Variable N : Z.

(** Count and table after the loop body took a response in range. *)
Lemma loopBody_in_range id ev st :
  arraysKept N st -> carriesResponse id ev -> 1 <= id <= N ->
  let st' := loopBody N ev (set_statusReg (u32 (ev_status ev)) st) in
  anchorsCount st' = anchorsCount st + 1
  /\ anchorsTimestamps st'
     = <[Z.to_nat (id - 1) := getRxTimestampU64 (ev_rxstamp ev)]>
         (anchorsTimestamps st).
Proof.
  intros (Hlen & _ & Htab & _) Hev Hid st'. subst st'.
  rewrite (loopBody_carriesResponse N id ev st Hlen Hev).
  set (st0 := set_statusReg (u32 (ev_status ev)) st).
  destruct (receiveFrame_frame ev st0) as (Hc & Ht & _).
  set (st1 := takeRxTimestamp ev (receiveFrame ev st0)).
  assert (anchorsTimestamps st1 = anchorsTimestamps st) as Ht1
    by (subst st1; unfold takeRxTimestamp; gsimpl; exact Ht).
  assert (anchorsCount st1 = anchorsCount st) as Hc1
    by (subst st1; unfold takeRxTimestamp; gsimpl; exact Hc).
  rewrite (recordResponse_in_range N id st1) by (rewrite ?Ht1; assumption).
  unfold rearmReceiver. gsimpl. rewrite Hc1, Ht1.
  destruct (_ <? N); gsimpl; rewrite ?Hc1, ?Ht1; split; reflexivity.
Qed.

Lemma peek_insert_other (a : list Z) (k : nat) v j :
  0 <= j -> j <> Z.of_nat k -> peek (<[k := v]> a) j = peek a j.
Proof.
  intros Hj Hne. unfold peek, inBounds. rewrite length_insert.
  destruct (_ && _); [|reflexivity].
  rewrite list_lookup_insert_ne by lia. reflexivity.
Qed.

Lemma responseLoop_repeats id reads : forall st,
  arraysKept N st -> 1 <= id <= N ->
  Forall (carriesResponse id) reads ->
  anchorsCount st + Z.of_nat (length reads) = N ->
  exists st',
    responseLoop N reads st = Exited st'
    /\ anchorsCount st' = N
    /\ forall j, 0 <= j -> j <> id - 1 ->
         peek (anchorsTimestamps st') j = peek (anchorsTimestamps st) j.
Proof.
  induction reads as [|ev reads IH]; intros st Hst Hid Hreads Hcount;
    cbn [responseLoop].
  - cbn [length] in Hcount.
    destruct (Z.ltb_spec (anchorsCount st) N); [lia|].
    exists st. split; [reflexivity|]. split; [lia|]. reflexivity.
  - cbn [length] in Hcount.
    destruct (Z.ltb_spec (anchorsCount st) N); [|lia].
    apply Forall_cons in Hreads as [Hev Hreads].
    gsimpl. rewrite rxEventPending_good by apply Hev.
    destruct (loopBody_in_range id ev st Hst Hev Hid) as (Hc & Ht).
    assert (arraysKept N (loopBody N ev (set_statusReg (u32 (ev_status ev)) st)))
      as Hst2.
    { apply arraysKept_loopBody. revert Hst. apply arraysKept_same; reflexivity. }
    destruct (IH _ Hst2 Hid Hreads) as (st' & Hrun & Hn & Hkeep); [lia|].
    exists st'. split; [exact Hrun|]. split; [exact Hn|].
    intros j Hj Hne. rewrite Hkeep, Ht by assumption.
    apply peek_insert_other; [exact Hj | lia].
Qed.

End Repeats.

(** X12.  Responses are counted, not told apart: [N] good frames that all
    carry the same anchor number from 1 to [N] end the collection, and the
    round goes on to the final frame with every other slot of the table
    still 0. *)
Theorem repeated_anchor_completes_the_round (regs : DecaRegs) (N id : Z)
    (inp : RoundInput) (st : Globals) :
  arraysKept N st -> 1 <= id <= N ->
  Forall (carriesResponse id) (in_reads inp) ->
  Z.of_nat (length (in_reads inp)) = N ->
  let o := dsInitRun N inp st in
  pastResponseLoop o = true
  /\ anchorsCount (stateOf o) = N
  /\ forall j, 0 <= j -> j <> id - 1 -> peek (anchorsTimestamps (stateOf o)) j = 0.
Proof.
  intros Hst Hid Hreads Hlen o. subst o. unfold dsInitRun.
  destruct (responseLoop_repeats N id (in_reads inp) (sendPoll st))
    as (st1 & -> & Hn & Hkeep);
    [apply arraysKept_sendPoll, Hst | exact Hid | exact Hreads
     | rewrite sendPoll_anchorsCount; lia |].
  rewrite pastResponseLoop_afterStartTx.
  destruct (afterStartTx_state (in_txStatus inp) (in_txReads inp)
              (sendFinal N (in_txstamp inp) st1)) as (-> & _ & _ & _ & -> & _).
  split; [reflexivity|]. split; [exact Hn|].
  intros j Hj Hne.
  change (anchorsTimestamps (sendFinal N (in_txstamp inp) st1))
    with (anchorsTimestamps st1).
  rewrite Hkeep by assumption. unfold sendPoll. gsimpl.
  unfold peek. destruct (inBounds _ _) eqn:E; [|reflexivity].
  apply inBounds_true in E. rewrite length_replicate in E.
  rewrite lookup_replicate_2 by lia. reflexivity.
Qed.

Lemma repeated_anchor_completes_the_round_witness :
  let inp := mkRoundInput
               [goodFrameEvent 20 (responseFrame 0 2) [0x0B; 0; 0; 0; 0];
                goodFrameEvent 20 (responseFrame 1 2) [0x0C; 0; 0; 0; 0];
                goodFrameEvent 20 (responseFrame 2 2) [0x0D; 0; 0; 0; 0]]
               [0x01; 0x02; 0x03; 0x04; 0x00] 0 [0x80] in
  let o := dsInitRun (regs := dw1000) 3 inp (initGlobals 3) in
  pastResponseLoop o = true /\ anchorsCount (stateOf o) = 3.
Proof.
  intros inp.
  destruct (repeated_anchor_completes_the_round dw1000 3 2 inp (initGlobals 3))
    as (H1 & H2 & _).
  - apply arraysKept_initGlobals. lia.
  - lia.
  - repeat constructor; apply carriesResponse_responseFrame; lia.
  - reflexivity.
  - split; assumption.
Defined.

(** * A full round *)

Section FullRound.
Context {regs : DecaRegs}.
Variable N : Z.

Lemma responseLoop_distinct ids : forall reads st,
  arraysKept N st ->
  Forall2 carriesResponse ids reads ->
  NoDup ids ->
  Forall (fun id => 1 <= id <= N) ids ->
  anchorsCount st + Z.of_nat (length ids) = N ->
  exists st',
    responseLoop N reads st = Exited st'
    /\ Forall2 (fun id ev => peek (anchorsTimestamps st') (id - 1)
                             = getRxTimestampU64 (ev_rxstamp ev)) ids reads
    /\ forall j, 0 <= j -> (forall id, In id ids -> j <> id - 1) ->
         peek (anchorsTimestamps st') j = peek (anchorsTimestamps st) j.
Proof.
  induction ids as [|id ids IH]; intros reads st Hst Hcar Hnd Hrange Hcount.
  - apply Forall2_nil_inv_l in Hcar as ->. cbn [length] in Hcount.
    cbn [responseLoop]. destruct (Z.ltb_spec (anchorsCount st) N); [lia|].
    exists st. split; [reflexivity|]. split; [constructor | reflexivity].
  - apply Forall2_cons_inv_l in Hcar as (ev & reads' & Hev & Hcar & ->).
    apply NoDup_cons in Hnd as [Hnotin Hnd].
    apply Forall_cons in Hrange as [Hid Hrange].
    cbn [length] in Hcount. cbn [responseLoop].
    destruct (Z.ltb_spec (anchorsCount st) N); [|lia].
    gsimpl. rewrite rxEventPending_good by apply Hev.
    destruct (loopBody_in_range N id ev st Hst Hev Hid) as (Hc & Ht).
    assert (arraysKept N (loopBody N ev (set_statusReg (u32 (ev_status ev)) st)))
      as Hst2.
    { apply arraysKept_loopBody. revert Hst. apply arraysKept_same; reflexivity. }
    destruct (IH reads' _ Hst2 Hcar Hnd Hrange) as (st' & Hrun & Hall & Hkeep);
      [lia|].
    exists st'. split; [exact Hrun|]. split.
    + constructor; [|exact Hall].
      rewrite Hkeep, Ht.
      * apply peek_lookup; [lia|]. apply list_lookup_insert_eq.
        destruct Hst as (_ & _ & Htab & _). lia.
      * lia.
      * intros id' Hin Heq. apply Hnotin. apply list_elem_of_In.
        replace id with id' by lia. exact Hin.
    + intros j Hj Hnot. rewrite Hkeep, Ht.
      * apply peek_insert_other; [exact Hj|].
        specialize (Hnot id (or_introl eq_refl)). lia.
      * exact Hj.
      * intros id' Hin. apply Hnot. right. exact Hin.
Qed.

End FullRound.

(** X13.  When the [N] status reads of a round carry responses from [N]
    different anchors, numbered from 1 to [N], in whatever order, the
    collection ends after the last of them and every anchor's receive
    timestamp is in that anchor's slot, number minus one. *)
Theorem distinct_anchors_fill_their_slots (regs : DecaRegs) (N : Z)
    (ids : list Z) (inp : RoundInput) (st : Globals) :
  arraysKept N st ->
  Forall2 carriesResponse ids (in_reads inp) ->
  NoDup ids ->
  Forall (fun id => 1 <= id <= N) ids ->
  Z.of_nat (length ids) = N ->
  let o := dsInitRun N inp st in
  pastResponseLoop o = true
  /\ Forall2 (fun id ev => peek (anchorsTimestamps (stateOf o)) (id - 1)
                           = getRxTimestampU64 (ev_rxstamp ev))
       ids (in_reads inp).
Proof.
  intros Hst Hcar Hnd Hrange Hlen o. subst o. unfold dsInitRun.
  destruct (responseLoop_distinct N ids (in_reads inp) (sendPoll st))
    as (st1 & -> & Hall & _);
    [apply arraysKept_sendPoll, Hst | exact Hcar | exact Hnd | exact Hrange
     | rewrite sendPoll_anchorsCount; lia |].
  rewrite pastResponseLoop_afterStartTx.
  destruct (afterStartTx_state (in_txStatus inp) (in_txReads inp)
              (sendFinal N (in_txstamp inp) st1)) as (_ & _ & _ & _ & -> & _).
  split; [reflexivity | exact Hall].
Qed.

Lemma distinct_anchors_fill_their_slots_witness :
  let o := dsInitRun (regs := dw1000) 3 shuffledRound (initGlobals 3) in
  pastResponseLoop o = true
  /\ Forall2 (fun id ev => peek (anchorsTimestamps (stateOf o)) (id - 1)
                           = getRxTimestampU64 (ev_rxstamp ev))
       [3; 1; 2] (in_reads shuffledRound).
Proof.
  apply (distinct_anchors_fill_their_slots dw1000 3 [3; 1; 2] shuffledRound
           (initGlobals 3)).
  - apply arraysKept_initGlobals. lia.
  - repeat constructor; apply carriesResponse_responseFrame; lia.
  - repeat constructor; intros H; repeat (apply elem_of_cons in H as [H|H];
      [discriminate H|]); inversion H.
  - repeat constructor; lia.
  - reflexivity.
Defined.

(** * The receive timestamps of the final frame *)

Lemma chunk_of_concat (l : list Z) : forall (i : nat) x (post : list Z),
  l !! i = Some x ->
  take 4 (drop (4 * i) (concat (map (leBytes 4) l) ++ post)) = leBytes 4 x.
Proof.
  induction l as [|y l IH]; intros i x post Hx; [discriminate|].
  cbn [map concat]. rewrite <- app_assoc. destruct i as [|i].
  - injection Hx as ->. cbn [Nat.mul drop].
    apply take_app_length'. symmetry. apply length_leBytes.
  - replace (4 * S i)%nat with (length (leBytes 4 y) + 4 * i)%nat
      by (rewrite length_leBytes; lia).
    rewrite drop_app_add. apply IH. exact Hx.
Qed.

(** X14.  [finalMsgSetRxTs] over a region that lies inside the frame:
    the frame keeps its length, the bytes before and after the region are
    as before, and for every slot [i] the four bytes at offset [4 * i] of
    the region read back little-endian as the slot's timestamp modulo
    [2^32]. *)
Theorem finalMsgSetRxTs_roundtrip (N : Z) (table msg : list Z) (tsField : Z) :
  0 <= tsField ->
  Z.of_nat (length table) = N ->
  tsField + 4 * N <= Z.of_nat (length msg) ->
  let msg' := finalMsgSetRxTs N table msg tsField in
  length msg' = length msg
  /\ take (Z.to_nat tsField) msg' = take (Z.to_nat tsField) msg
  /\ drop (Z.to_nat (tsField + 4 * N)) msg' = drop (Z.to_nat (tsField + 4 * N)) msg
  /\ forall i, 0 <= i < N ->
       leValue (field32 msg' (tsField + 4 * i)) = peek table i mod 2 ^ 32.
Proof.
  intros H0 Htab Hfit msg'.
  set (pre := take (Z.to_nat tsField) msg).
  set (old := take (4 * length table) (drop (Z.to_nat tsField) msg)).
  set (post := drop (Z.to_nat tsField + 4 * length table) msg).
  assert (msg = pre ++ old ++ post) as Hmsg.
  { subst pre old post. rewrite <- drop_drop, !take_drop. reflexivity. }
  assert (length pre = Z.to_nat tsField) as Hpre
    by (subst pre; rewrite length_take_le; lia).
  assert (msg' = pre ++ concat (map (leBytes 4) table) ++ post) as Hmsg'.
  { subst msg'. unfold finalMsgSetRxTs. rewrite Hmsg at 1.
    replace tsField with (Z.of_nat (length pre)) by lia.
    rewrite <- Htab. rewrite finalMsgSetRxTs_slots.
    - rewrite firstn_all. reflexivity.
    - subst old. rewrite length_take_le; [reflexivity|]. rewrite length_drop. lia.
    - lia. }
  split; [apply length_finalMsgSetRxTs|]. split; [|split].
  - rewrite Hmsg'. apply take_app_length'. symmetry. exact Hpre.
  - rewrite Hmsg'. rewrite app_assoc.
    replace (drop (Z.to_nat (tsField + 4 * N)) msg) with post
      by (subst post; f_equal; lia).
    apply drop_app_length'.
    rewrite length_app, length_concat_leBytes4. lia.
  - intros i Hi. unfold field32. rewrite Hmsg'.
    replace (Z.to_nat (tsField + 4 * i)) with (length pre + 4 * Z.to_nat i)%nat
      by lia.
    rewrite drop_app_add.
    destruct (lookup_lt_is_Some_2 table (Z.to_nat i)) as [x Hx]; [lia|].
    rewrite (chunk_of_concat table (Z.to_nat i) x post Hx).
    rewrite leValue_leBytes. rewrite (peek_lookup table i x) by (lia || exact Hx).
    reflexivity.
Qed.

Lemma finalMsgSetRxTs_roundtrip_witness :
  leValue (field32 (finalMsgSetRxTs 3 [0x0102030405; 7; 0xFFFFFFFFFF]
                      tagFinalMsg_init FINAL_MSG_RX_1_IDX)
             (FINAL_MSG_RX_1_IDX + 4 * 2))
  = 0xFFFFFFFF.
Proof.
  destruct (finalMsgSetRxTs_roundtrip 3 [0x0102030405; 7; 0xFFFFFFFFFF]
              tagFinalMsg_init FINAL_MSG_RX_1_IDX) as (_ & _ & _ & H).
  - unfold FINAL_MSG_RX_1_IDX. lia.
  - reflexivity.
  - unfold FINAL_MSG_RX_1_IDX. cbn. lia.
  - rewrite (H 2) by lia. reflexivity.
Defined.

(** * Counting receptions *)

Section Counting.
Context {regs : DecaRegs}.
Variable N : Z.

(** One run of the loop body: the response count grows no more than the
    reception count, and neither grows without RXFCG. *)
Lemma loopBody_counts ev st :
  let st' := loopBody N ev st in
  0 <= anchorsCount st' - anchorsCount st <= rxCount st' - rxCount st
  /\ rxCount st' - rxCount st
     <= (if negb (Z.land (statusReg st) SYS_STATUS_RXFCG =? 0) then 1 else 0).
Proof.
  cbn zeta. unfold loopBody. destruct (negb _); [|lia].
  unfold onGoodFrame.
  destruct (receiveFrame_frame ev st) as (Hc & _ & _ & Hr & _).
  destruct (memcmp_eq _ _ _); [|gsimpl; lia].
  unfold onResponse, rearmReceiver, recordResponse, storeAnchorTimestamp,
    takeRxTimestamp. gsimpl.
  destruct (N <? _); gsimpl.
  - destruct (_ <? N); gsimpl; lia.
  - destruct (_ <? N); destruct (inBounds _ _); gsimpl; lia.
Qed.

Lemma responseLoop_counts reads : forall st,
  let st' := loopState (responseLoop N reads st) in
  0 <= anchorsCount st' - anchorsCount st <= rxCount st' - rxCount st
  /\ rxCount st' - rxCount st <= Z.of_nat (length (goodFrameReads reads)).
Proof.
  induction reads as [|ev reads IH]; intros st; cbn zeta; cbn [responseLoop].
  - destruct (_ <? N); cbn [loopState goodFrameReads List.filter length]; lia.
  - destruct (_ <? N);
      [|cbn [loopState]; pose proof (Nat2Z.is_nonneg
                                       (length (goodFrameReads (ev :: reads)))); lia].
    set (st1 := set_statusReg (u32 (ev_status ev)) st).
    pose proof (loopBody_counts ev st1) as Hbody. cbn zeta in Hbody.
    change (statusReg st1) with (u32 (ev_status ev)) in Hbody.
    change (anchorsCount st1) with (anchorsCount st) in Hbody.
    change (rxCount st1) with (rxCount st) in Hbody.
    unfold goodFrameReads. cbn [List.filter]. fold (goodFrameReads reads).
    destruct (rxEventPending _).
    + pose proof (IH (loopBody N ev st1)) as Hrest. cbn zeta in Hrest.
      destruct (negb _); cbn [length]; lia.
    + pose proof (IH st1) as Hrest. cbn zeta in Hrest.
      change (anchorsCount st1) with (anchorsCount st) in Hrest.
      change (rxCount st1) with (rxCount st) in Hrest.
      destruct (negb _); cbn [length]; lia.
Qed.

End Counting.

(** X15.  A call of [dsInitRun] in which no store leaves the table (no
    response carries anchor number 0, see C1) counts at most as many
    responses as receptions, and at most as many receptions as the radio
    reported good frames.  Such a call is past the collection loop only
    with exactly [N] responses counted, so only after [N] status reads
    with RXFCG set, whatever timeouts and errors came in between; while it
    is in the loop it has counted fewer than [N].  A store outside the
    table is undefined in C and may change the counter the loop tests:
    nothing is stated for a call that makes one. *)
Theorem counted_responses_need_good_frames (regs : DecaRegs) (N : Z)
    (inp : RoundInput) (st : Globals) :
  strayStores (stateOf (dsInitRun N inp st)) = strayStores st ->
  let o := dsInitRun N inp st in
  0 <= anchorsCount (stateOf o) <= rxCount (stateOf o) - rxCount st
  /\ rxCount (stateOf o) - rxCount st
     <= Z.of_nat (length (goodFrameReads (in_reads inp)))
  /\ (0 <= N -> pastResponseLoop o = true ->
        anchorsCount (stateOf o) = N
        /\ N <= Z.of_nat (length (goodFrameReads (in_reads inp))))
  /\ (pastResponseLoop o = false -> anchorsCount (stateOf o) < N).
Proof.
  intros _ o. subst o. unfold dsInitRun.
  pose proof (responseLoop_counts N (in_reads inp) (sendPoll st)) as Hloop.
  pose proof (responseLoop_result N (in_reads inp) (sendPoll st)) as Hres.
  cbn zeta in Hloop. rewrite sendPoll_anchorsCount in Hloop.
  change (rxCount (sendPoll st)) with (rxCount st) in Hloop.
  destruct (responseLoop N (in_reads inp) (sendPoll st)) as [st1|st1] eqn:E;
    cbn [loopState stateOf] in *.
  - split; [lia|]. split; [lia|]. split; [discriminate|]. intros _. exact Hres.
  - destruct (afterStartTx_state (in_txStatus inp) (in_txReads inp)
                (sendFinal N (in_txstamp inp) st1)) as (-> & _).
    assert (rxCount (stateOf (afterStartTx (in_txStatus inp) (in_txReads inp)
                                (sendFinal N (in_txstamp inp) st1)))
            = rxCount st1) as ->.
    { unfold afterStartTx.
      destruct (_ =? _); [destruct (txDoneSeen _)|]; reflexivity. }
    change (anchorsCount (sendFinal N (in_txstamp inp) st1)) with (anchorsCount st1).
    split; [lia|]. split; [lia|]. split.
    + intros HN _.
      pose proof (responseLoop_exit_count N (in_reads inp) (sendPoll st)) as Hexit.
      rewrite (Hexit ltac:(rewrite sendPoll_anchorsCount; lia) st1 E) in Hloop.
      split; [|lia].
      apply (Hexit ltac:(rewrite sendPoll_anchorsCount; lia) st1 E).
    + rewrite pastResponseLoop_afterStartTx. discriminate.
Qed.

Lemma counted_responses_need_good_frames_witness :
  anchorsCount (stateOf (dsInitRun (regs := dw1000) 3 interruptedRound (initGlobals 3)))
  = 3
  /\ 3 <= Z.of_nat (length (goodFrameReads (regs := dw1000)
                              (in_reads interruptedRound))).
Proof.
  destruct (counted_responses_need_good_frames dw1000 3 interruptedRound
              (initGlobals 3)) as (_ & _ & Hpast & _).
  - vm_compute. reflexivity.
  - apply Hpast; [lia|]. vm_compute. reflexivity.
Defined.

(** * Returning from a round *)

Lemma txDoneSeen_reported (regs : DecaRegs) txReads :
  txDoneSeen txReads = true <-> txDoneReported txReads.
Proof.
  unfold txDoneReported. induction txReads as [|r rs IH]; cbn [txDoneSeen].
  - split; [discriminate | intros H; inversion H].
  - destruct (Z.eqb_spec (Z.land (u32 r) SYS_STATUS_TXFRS) 0) as [E|E]; cbn [negb].
    + rewrite IH. rewrite Exists_cons. tauto.
    + split; [intros _; apply Exists_cons; left; exact E | reflexivity].
Qed.

(** X16.  A call of [dsInitRun] returns exactly when the collection loop
    ends and either the delayed start is turned down or some later status
    read shows TXFRS.  It then returns 1.  After a start that is turned
    down nothing more goes to the radio: the last command is the delayed
    start; after one that is accepted the last command clears TXFRS. *)
Theorem dsInitRun_returns_iff (regs : DecaRegs) (N : Z) (inp : RoundInput)
    (st : Globals) :
  let o := dsInitRun N inp st in
  ((exists r st', o = Returned r st')
   <-> isSpinning (responseLoop N (in_reads inp) (sendPoll st)) = false
       /\ (in_txStatus inp <> DWT_SUCCESS \/ txDoneReported (in_txReads inp)))
  /\ (forall r st', o = Returned r st' ->
        r = 1
        /\ exists pre,
             radio st'
             = pre ++ (if in_txStatus inp =? DWT_SUCCESS
                       then [StartTx true false;
                             Write32bitReg_SYS_STATUS SYS_STATUS_TXFRS]
                       else [StartTx true false])).
Proof.
  intros o. subst o. unfold dsInitRun.
  destruct (responseLoop N (in_reads inp) (sendPoll st)) as [st1|st1];
    cbn [isSpinning].
  - split; [|discriminate]. split.
    + intros (r & st' & H). discriminate H.
    + intros [H _]. discriminate H.
  - unfold afterStartTx.
    pose proof (txDoneSeen_reported regs (in_txReads inp)) as Hdone.
    pose proof (sendFinal_tagSendDelayTime N (in_txstamp inp) st1) as Hlog.
    destruct (Z.eqb_spec (in_txStatus inp) DWT_SUCCESS) as [Hok|Hrej].
    + destruct (txDoneSeen (in_txReads inp)).
      * split.
        -- split; [intros _; split; [reflexivity|right; apply Hdone; reflexivity]
                  | intros _; eexists _, _; reflexivity].
        -- intros r st' [= <- <-]. split; [reflexivity|]. gsimpl. rewrite Hlog.
           exists (radio st1 ++
                   [ReadTxTimestamp;
                    SetDelayedTrxTime
                      (scheduledFinalTxTime
                         (peek (anchorsTimestamps st1) (N - 1))
                         RESP_RX_TO_FINAL_TX_DLY_UUS);
                    WriteTxData sizeof_tagFinalMsg
                      (tagFinalMsg (sendFinal N (in_txstamp inp) st1));
                    WriteTxFctrl sizeof_tagFinalMsg 0 1]).
           rewrite <- !app_assoc. reflexivity.
      * split; [|discriminate]. split.
        -- intros (r & st' & H). discriminate H.
        -- intros (_ & [H|H]); [contradiction|]. apply Hdone in H. discriminate H.
    + split.
      * split; [intros _; split; [reflexivity|left; exact Hrej]
               | intros _; eexists _, _; reflexivity].
      * intros r st' [= <- <-]. split; [reflexivity|]. rewrite Hlog.
        exists (radio st1 ++
                [ReadTxTimestamp;
                 SetDelayedTrxTime
                   (scheduledFinalTxTime
                      (peek (anchorsTimestamps st1) (N - 1))
                      RESP_RX_TO_FINAL_TX_DLY_UUS);
                 WriteTxData sizeof_tagFinalMsg
                   (tagFinalMsg (sendFinal N (in_txstamp inp) st1));
                 WriteTxFctrl sizeof_tagFinalMsg 0 1]).
        rewrite <- !app_assoc. reflexivity.
Qed.

(** * The poll frame *)

Section PollFrame.
Context {regs : DecaRegs}.
Variable N : Z.

Lemma pollIntact_sendPoll st :
  pollIntact st ->
  tagFirstMsg (sendPoll st) = pollHeader (exchangeSeqCount st) ++ [0; 0].
Proof.
  intros ((s & Hs) & _). unfold sendPoll. gsimpl. rewrite Hs.
  change (pollHeader s ++ [0; 0])
    with ([0x41; 0x88] ++ s :: [0xCA; 0xDE; chW; chA; chV; chE; 0xE0; 0; 0]).
  change EX_SEQ_COUNT_IDX with (Z.of_nat (length [0x41; 0x88])).
  rewrite poke_middle. reflexivity.
Qed.

Lemma pollIntact_dsInitRun inp st :
  pollIntact st -> pollIntact (stateOf (dsInitRun N inp st)).
Proof.
  intros Hst. pose proof (pollIntact_sendPoll st Hst) as Hpoll.
  destruct Hst as (_ & Hseq). unfold dsInitRun.
  pose proof (responseLoop_frame N (in_reads inp) (sendPoll st)) as Hfr.
  destruct (responseLoop N (in_reads inp) (sendPoll st)) as [st1|st1];
    cbn [loopState stateOf] in *; destruct Hfr as (Hs & Hm & _).
  - unfold pollIntact. rewrite Hs, Hm, Hpoll. split; [eexists; reflexivity|].
    exact Hseq.
  - destruct (afterStartTx_state (in_txStatus inp) (in_txReads inp)
                (sendFinal N (in_txstamp inp) st1)) as (_ & A1 & A2 & _).
    unfold pollIntact. rewrite A1, A2.
    change (tagFirstMsg (sendFinal N (in_txstamp inp) st1)) with (tagFirstMsg st1).
    rewrite Hm, Hpoll. split; [eexists; reflexivity|]. apply u8_range.
Qed.

Lemma pollIntact_taskLoop inputs : forall st,
  pollIntact st -> pollIntact (stateOf (taskLoop N inputs st)).
Proof.
  induction inputs as [|inp inputs IH]; intros st Hst; cbn [taskLoop].
  - exact Hst.
  - pose proof (pollIntact_dsInitRun inp st Hst) as Hrun.
    destruct (dsInitRun N inp st); cbn [stateOf] in *; auto.
Qed.

End PollFrame.

(** X17.  In every state the task can reach, the poll frame array still
    holds the poll header and the counter is an 8-bit value, so the poll
    the next call of [dsInitRun] gives the transmitter is the 12-byte
    template with the current sequence number at byte 2 and nothing else
    changed; the four commands of the poll, ending with the immediate
    start that expects a response, go to the radio before anything else
    of the round. *)
Theorem poll_frame_is_the_template (regs : DecaRegs) (N : Z)
    (inputs : list RoundInput) :
  let st := stateOf (ds_initiator_task_function N inputs (initGlobals N)) in
  0 <= exchangeSeqCount st < 256
  /\ tagFirstMsg (sendPoll st) = pollHeader (exchangeSeqCount st) ++ [0; 0]
  /\ forall inp, exists rest,
       radio (stateOf (dsInitRun N inp st))
       = radio st
           ++ [Write32bitReg_SYS_STATUS SYS_STATUS_TXFRS;
               WriteTxData sizeof_tagFirstMsg
                 (pollHeader (exchangeSeqCount st) ++ [0; 0]);
               WriteTxFctrl sizeof_tagFirstMsg 0 1;
               StartTx false true]
           ++ rest.
Proof.
  intros st.
  assert (pollIntact st) as Hst.
  { subst st. unfold ds_initiator_task_function. apply pollIntact_taskLoop.
    split; [exists 0; reflexivity | cbn; lia]. }
  pose proof (pollIntact_sendPoll st Hst) as Hpoll.
  split; [apply Hst|]. split; [exact Hpoll|].
  intros inp.
  assert (forall reads s, exists rest,
            radio (loopState (responseLoop N reads s)) = radio s ++ rest) as Hgrow.
  { intros reads s.
    apply (responseLoop_invariant N (fun x => exists rest, radio x = radio s ++ rest)).
    - intros x v Hx. exact Hx.
    - intros ev x (rest & Hx). unfold loopBody. destruct (negb _); [|eauto].
      unfold onGoodFrame. pose proof (receiveFrame_radio ev x) as Hr.
      cbn zeta in Hr.
      destruct (memcmp_eq _ _ _).
      + unfold onResponse, rearmReceiver, recordResponse, storeAnchorTimestamp,
          takeRxTimestamp. gsimpl.
        destruct (N <? _); gsimpl.
        * destruct (_ <? N); gsimpl; rewrite Hr, Hx, <- !app_assoc; eauto.
        * destruct (_ <? N); destruct (inBounds _ _); gsimpl;
            rewrite Hr, Hx, <- !app_assoc; eauto.
      + gsimpl. rewrite Hr, Hx, <- !app_assoc. eauto.
    - exists []. rewrite app_nil_r. reflexivity. }
  assert (radio (sendPoll st)
          = radio st ++
            [Write32bitReg_SYS_STATUS SYS_STATUS_TXFRS;
             WriteTxData sizeof_tagFirstMsg
               (pollHeader (exchangeSeqCount st) ++ [0; 0]);
             WriteTxFctrl sizeof_tagFirstMsg 0 1;
             StartTx false true]) as Hlog.
  { rewrite <- Hpoll. reflexivity. }
  unfold dsInitRun.
  destruct (Hgrow (in_reads inp) (sendPoll st)) as (rest & Hrest).
  destruct (responseLoop N (in_reads inp) (sendPoll st)) as [st1|st1];
    cbn [loopState stateOf] in *.
  - exists rest. rewrite Hrest, Hlog, <- app_assoc. reflexivity.
  - destruct (afterStartTx_state (in_txStatus inp) (in_txReads inp)
                (sendFinal N (in_txstamp inp) st1))
      as (_ & _ & _ & _ & _ & _ & _ & Hend & _).
    destruct Hend as [-> | ->]; rewrite sendFinal_tagSendDelayTime, Hrest, Hlog;
      rewrite <- !app_assoc; eexists; reflexivity.
Qed.

(** * Twist solver: return codes *)

Section TwistCodes.
Context {arith : TwistSolver.Arith}.
Import TwistSolver.

Lemma solvSpotTurn_code angular platform wheel drive :
  fst (solvSpotTurn angular platform wheel drive)
  = if eqb (ang_z angular) (of_int 0) then TWIST_ZERO else TWIST_OK.
Proof. unfold solvSpotTurn. destruct (eqb _ _); reflexivity. Qed.

Lemma solvInArcTurn_code linear angular platform wheel drive :
  fst (solvInArcTurn linear angular platform wheel drive)
  = if eqb (ang_z angular) (of_int 0) then TWIST_ZERO
    else if ltb (solvBodyRadius linear angular) PLATFORM_RADIUS_LIM
         then TWIST_EX_LIM else TWIST_OK.
Proof.
  unfold solvInArcTurn. destruct (eqb _ _); [reflexivity|].
  destruct (ltb _ _); reflexivity.
Qed.

Lemma solvOutArcTurn_code linear angular platform wheel drive :
  fst (solvOutArcTurn linear angular platform wheel drive)
  = if eqb (ang_z angular) (of_int 0) then TWIST_ZERO
    else if ltb (solvBodyRadius linear angular) PLATFORM_RADIUS_LIM
         then TWIST_EX_LIM else TWIST_OK.
Proof.
  unfold solvOutArcTurn. destruct (eqb _ _); [reflexivity|].
  destruct (ltb _ _); reflexivity.
Qed.

Lemma solvArcTurn_code linear angular platform wheel drive :
  fst (solvArcTurn linear angular platform wheel drive)
  = if eqb (ang_z angular) (of_int 0) then TWIST_ZERO
    else if ltb (solvBodyRadius linear angular) PLATFORM_RADIUS_LIM
         then TWIST_EX_LIM else TWIST_OK.
Proof.
  unfold solvArcTurn.
  destruct (arcSide linear angular wheel);
    [apply solvInArcTurn_code | apply solvOutArcTurn_code].
Qed.

Lemma solvStrafe_code linear platform wheel drive :
  fst (solvStrafe linear platform wheel drive) = TWIST_OK.
Proof. reflexivity. Qed.

(** The return code of [solveTwist] from the three zero tests and the
    radius test. *)
Lemma solveTwist_code linear angular platform wheel drive :
  fst (solveTwist linear angular platform wheel drive)
  = if neb (lin_y linear) (of_int 0) && neb (ang_z angular) (of_int 0)
    then TWIST_UNKNOWN
    else if neb (lin_x linear) (of_int 0) && eqb (lin_y linear) (of_int 0)
            && neb (ang_z angular) (of_int 0)
            && ltb (solvBodyRadius linear angular) PLATFORM_RADIUS_LIM
    then TWIST_EX_LIM
    else TWIST_OK.
Proof.
  unfold solveTwist, neb. cbn zeta.
  destruct (eqb (lin_x linear) (of_int 0)) eqn:Ex;
    destruct (eqb (lin_y linear) (of_int 0)) eqn:Ey;
    destruct (eqb (ang_z angular) (of_int 0)) eqn:Ez;
    cbn [negb andb fst];
    rewrite ?solvSpotTurn_code, ?solvArcTurn_code, ?solvStrafe_code, ?Ez;
    reflexivity.
Qed.

End TwistCodes.

(** X18.  [solveTwist] answers TWIST_UNKNOWN exactly when the sideways
    velocity and the angular velocity are both non-zero, and then leaves
    the drive parameters as they were. *)
Theorem solveTwist_unknown_iff (arith : TwistSolver.Arith)
    (linear : TwistSolver.LinearVels_t) (angular : TwistSolver.AngularVels_t)
    (platform : TwistSolver.PlatformDimensions_t)
    (wheel : TwistSolver.WheelParams_t) (drive : TwistSolver.DriveParams_t) :
  let r := TwistSolver.solveTwist linear angular platform wheel drive in
  (fst r = TwistSolver.TWIST_UNKNOWN
   <-> TwistSolver.neb (TwistSolver.lin_y linear) (TwistSolver.of_int 0)
       && TwistSolver.neb (TwistSolver.ang_z angular) (TwistSolver.of_int 0)
       = true)
  /\ (fst r = TwistSolver.TWIST_UNKNOWN -> snd r = drive).
Proof.
  intros r. subst r. split.
  - rewrite solveTwist_code.
    destruct (TwistSolver.neb (TwistSolver.lin_y linear) _
              && TwistSolver.neb (TwistSolver.ang_z angular) _).
    + tauto.
    + destruct (_ && _); split; discriminate.
  - unfold TwistSolver.solveTwist, TwistSolver.neb. cbn zeta.
    destruct (TwistSolver.eqb (TwistSolver.lin_x linear) _);
      destruct (TwistSolver.eqb (TwistSolver.lin_y linear) _);
      destruct (TwistSolver.eqb (TwistSolver.ang_z angular) _) eqn:Ez;
      cbn [negb andb fst snd]; try discriminate; try reflexivity.
    + rewrite solvSpotTurn_code, Ez. discriminate.
    + rewrite solvArcTurn_code, Ez.
      destruct (TwistSolver.ltb _ _); discriminate.
Qed.

(** X19.  [solveTwist] never answers TWIST_ZERO: the spot-turn and
    arc-turn solvers answer it exactly when the angular velocity is zero,
    and [solveTwist] calls them only when it is not. *)
Theorem solveTwist_never_zero (arith : TwistSolver.Arith)
    (linear : TwistSolver.LinearVels_t) (angular : TwistSolver.AngularVels_t)
    (platform : TwistSolver.PlatformDimensions_t)
    (wheel : TwistSolver.WheelParams_t) (drive : TwistSolver.DriveParams_t) :
  fst (TwistSolver.solveTwist linear angular platform wheel drive)
  <> TwistSolver.TWIST_ZERO
  /\ (fst (TwistSolver.solvSpotTurn angular platform wheel drive)
      = TwistSolver.TWIST_ZERO
      <-> TwistSolver.eqb (TwistSolver.ang_z angular) (TwistSolver.of_int 0) = true)
  /\ (fst (TwistSolver.solvArcTurn linear angular platform wheel drive)
      = TwistSolver.TWIST_ZERO
      <-> TwistSolver.eqb (TwistSolver.ang_z angular) (TwistSolver.of_int 0) = true).
Proof.
  split; [|split].
  - rewrite solveTwist_code. destruct (_ && _); [discriminate|].
    destruct (_ && _); discriminate.
  - rewrite solvSpotTurn_code. destruct (TwistSolver.eqb _ _); split;
      try discriminate; reflexivity.
  - rewrite solvArcTurn_code. destruct (TwistSolver.eqb _ _);
      [split; reflexivity|].
    destruct (TwistSolver.ltb _ _); split; discriminate.
Qed.

(** X20.  [solveTwist] answers TWIST_EX_LIM exactly in a steering
    movement (forward velocity and angular velocity non-zero, no sideways
    velocity) whose turn radius [fabs (linear.x / angular.z)] is below
    PLATFORM_RADIUS_LIM; the steering angle and the speed are then set to
    0 and the servo position is left as it was. *)
Theorem solveTwist_ex_lim_iff (arith : TwistSolver.Arith)
    (linear : TwistSolver.LinearVels_t) (angular : TwistSolver.AngularVels_t)
    (platform : TwistSolver.PlatformDimensions_t)
    (wheel : TwistSolver.WheelParams_t) (drive : TwistSolver.DriveParams_t) :
  let r := TwistSolver.solveTwist linear angular platform wheel drive in
  let zero := TwistSolver.of_int 0 in
  (fst r = TwistSolver.TWIST_EX_LIM
   <-> TwistSolver.neb (TwistSolver.lin_x linear) zero
       && TwistSolver.eqb (TwistSolver.lin_y linear) zero
       && TwistSolver.neb (TwistSolver.ang_z angular) zero
       && TwistSolver.ltb
            (TwistSolver.fabs
               (TwistSolver.div (TwistSolver.lin_x linear)
                  (TwistSolver.ang_z angular)))
            TwistSolver.PLATFORM_RADIUS_LIM
       = true)
  /\ (fst r = TwistSolver.TWIST_EX_LIM ->
        snd r = TwistSolver.mkDrive zero (TwistSolver.posAngle drive) zero).
Proof.
  intros r zero. subst r zero. split.
  - rewrite solveTwist_code. unfold TwistSolver.solvBodyRadius, TwistSolver.neb.
    cbn zeta.
    destruct (TwistSolver.eqb (TwistSolver.lin_x linear) _);
      destruct (TwistSolver.eqb (TwistSolver.lin_y linear) _);
      destruct (TwistSolver.eqb (TwistSolver.ang_z angular) _);
      cbn [negb andb]; try (split; discriminate).
    destruct (TwistSolver.ltb _ _); split; try discriminate; reflexivity.
  - unfold TwistSolver.solveTwist, TwistSolver.neb. cbn zeta.
    destruct (TwistSolver.eqb (TwistSolver.lin_x linear) _);
      destruct (TwistSolver.eqb (TwistSolver.lin_y linear) _);
      destruct (TwistSolver.eqb (TwistSolver.ang_z angular) _) eqn:Ez;
      cbn [negb andb fst snd]; try discriminate.
    + rewrite solvSpotTurn_code, Ez. discriminate.
    + unfold TwistSolver.solvArcTurn.
      destruct (TwistSolver.arcSide linear angular wheel);
        unfold TwistSolver.solvInArcTurn, TwistSolver.solvOutArcTurn;
        rewrite Ez; destruct (TwistSolver.ltb _ _); cbn [fst snd];
        try discriminate; reflexivity.
Qed.

(** X21.  In a steering movement the two wheels of a side get the same
    arc solver, and the left and the right side get the same one only when
    the angular velocity is neither above nor below zero: whenever it is,
    one side runs the inner arc and the other the outer arc. *)
Theorem arc_sides_are_opposite (arith : TwistSolver.Arith)
    (linear : TwistSolver.LinearVels_t) (angular : TwistSolver.AngularVels_t)
    (r c : TwistSolver.num) :
  let side pos :=
    TwistSolver.arcSide linear angular (TwistSolver.mkWheel r c pos) in
  let zero := TwistSolver.of_int 0 in
  side TwistSolver.WHEEL_POS_TOP_LEFT = side TwistSolver.WHEEL_POS_BOTTOM_LEFT
  /\ side TwistSolver.WHEEL_POS_TOP_RIGHT = side TwistSolver.WHEEL_POS_BOTTOM_RIGHT
  /\ (side TwistSolver.WHEEL_POS_TOP_LEFT = side TwistSolver.WHEEL_POS_TOP_RIGHT
      <-> TwistSolver.gtb (TwistSolver.ang_z angular) zero
          || TwistSolver.ltb (TwistSolver.ang_z angular) zero
          = false).
Proof.
  intros side zero. subst side zero. unfold TwistSolver.arcSide.
  cbn [TwistSolver.wheelPos TwistSolver.wheelPos_eqb orb].
  destruct (TwistSolver.gtb (TwistSolver.ang_z angular) _);
    destruct (TwistSolver.ltb (TwistSolver.ang_z angular) _);
    destruct (TwistSolver.gtb (TwistSolver.lin_x linear) _);
    cbn [andb orb]; repeat split; try reflexivity; try discriminate.
Qed.
